(** * d3Conduit: the lifecycle adapter of [src/d3Conduit.js]

    A shallow embedding of the adapter factory [d3Conduit] and of the
    component class [D3Container] it returns, together with the parts of
    the surrounding libraries the code calls: lodash's [defaultsDeep],
    [Object.assign], d3-selection's [attr], [style], [remove] and [on],
    [parseInt], and the order in which React drives the lifecycle hooks.

    JavaScript objects live in a heap of property maps, so that the
    aliasing between the caller's options object and the resolved options
    is visible.  The DOM, the listeners registered on [window] and a log of
    the observable effects form the [world] the lifecycle hooks act on.

    The two callbacks are the caller's code.  A call of one of them is
    recorded in the log with its arguments; what it draws under the node
    is not followed, and it is taken to leave the [id] attribute of the
    [svg] and the listeners on [window] alone. *)

From Stdlib Require Import Ascii.
From stdpp Require Import gmap strings list fin_maps pretty.

Open Scope string_scope.
Open Scope Z_scope.
Open Scope list_scope.

(** ** A state and exception monad

    The source throws ([throw new Error], the [TypeError]s of the
    runtime) in the middle of sequences of mutations; a computation
    returns the state reached together with either the exception thrown
    or its result. *)

Inductive exn :=
  | Error (msg : string)
  | TypeError (msg : string).

Definition M (S A : Type) : Type := S → S * (exn + A).

Definition ret {S A} (a : A) : M S A := λ s, (s, inr a).
Definition throw {S A} (e : exn) : M S A := λ s, (s, inl e).
Definition bind {S A B} (m : M S A) (k : A → M S B) : M S B :=
  λ s, match m s with
       | (s', inl e) => (s', inl e)
       | (s', inr a) => k a s'
       end.
Definition modify {S} (f : S → S) : M S () := λ s, (f s, inr ()).
Definition gets {S A} (f : S → A) : M S A := λ s, (s, inr (f s)).

Notation "'let*' x ':=' m 'in' k" := (bind m (λ x, k))
  (at level 10, x pattern, m at level 100, k at level 200).

(** ** JavaScript values and the object heap *)

Definition loc := positive.

Inductive val :=
  | VUndefined
  | VNull
  | VBool (b : bool)
  | VNum (n : Z)
  | VStr (s : string)
  | VRef (l : loc).

Global Instance val_eq_dec : EqDecision val.
Proof. solve_decision. Defined.

(** An object is its own enumerable properties; functions are objects
    that can be called.  Objects are ordinary ones: extensible, every
    property a writable data property. *)
Record obj := Obj { callable : bool; own : gmap string val }.

Abbreviation heap := (gmap loc obj).

(** [typeof v]; a reference that points nowhere does not occur in a
    running program and is given the type of a plain object. *)
Definition typeof (h : heap) (v : val) : string :=
  match v with
  | VUndefined => "undefined"
  | VNull => "object"
  | VBool _ => "boolean"
  | VNum _ => "number"
  | VStr _ => "string"
  | VRef l =>
      match h !! l with
      | Some o => if callable o then "function" else "object"
      | None => "object"
      end
  end.

(** [object[key]] *)
Definition get (h : heap) (l : loc) (k : string) : val :=
  match h !! l with
  | Some o => default VUndefined (own o !! k)
  | None => VUndefined
  end.

(** [object[key] = v] *)
Definition set_prop (h : heap) (l : loc) (k : string) (v : val) : heap :=
  alter (λ o, Obj (callable o) (<[k := v]> (own o))) l h.

(** [{}] at a location not yet in use *)
Definition alloc (h : heap) : loc * heap :=
  let t := fresh (dom h) in (t, <[t := Obj false ∅]> h).

(** ** lodash [defaultsDeep]

    The source of the merge is always an object literal of the program, a
    finite tree of numbers and nested literals. *)

#[warnings="-register-all"]
Inductive lit :=
  | LNum (n : Z)
  | LObj (members : list (string * lit)).

(** [baseMerge] with the [customDefaultsMerge] customizer, for one key
    [k] of the source with value [sv], into the object at [l]:
    - a source number is assigned when [object[k]] is [undefined];
    - a source object is merged into [object[k]] when that is an object,
      is cloned (into a fresh object) when [object[k]] is [undefined],
      and is dropped when [object[k]] is any other value. *)
Fixpoint mergeValue (sv : lit) (k : string) (l : loc) (h : heap) : heap :=
  match sv with
  | LNum n =>
      match get h l k with
      | VUndefined => set_prop h l k (VNum n)
      | _ => h
      end
  | LObj fs =>
      let mergeInto :=
        fix go (fs : list (string * lit)) (t : loc) (h : heap) : heap :=
          match fs with
          | [] => h
          | (k', sv') :: fs' => go fs' t (mergeValue sv' k' t h)
          end in
      match get h l k with
      | VRef t => mergeInto fs t h
      | VUndefined =>
          let '(t, h1) := alloc h in
          set_prop (mergeInto fs t h1) l k (VRef t)
      | _ => h
      end
  end.

(** [baseMerge(object, source)]: every key of the source, in order. *)
Fixpoint baseMerge (src : list (string * lit)) (l : loc) (h : heap) : heap :=
  match src with
  | [] => h
  | (k, sv) :: src' => baseMerge src' l (mergeValue sv k l h)
  end.

(** [defaultsDeep(object, source)]: the target is [Object(object)], the
    object itself or, for [undefined] and [null], a new empty object;
    the source is merged into it and it is returned. *)
Definition defaultsDeep (object : val) (src : list (string * lit))
    (h : heap) : heap * val :=
  match object with
  | VRef l => (baseMerge src l h, VRef l)
  | _ => let '(t, h1) := alloc h in (baseMerge src t h1, VRef t)
  end.

(** ** The adapter factory *)

(** The third argument of the factory: left out ([undefined]), [null],
    or a reference to an object.  Primitive arguments, which lodash and
    [Object.assign] would box, are not followed by the model. *)
Inductive optarg :=
  | OUndefined
  | ONull
  | OObject (l : loc).

Definition optarg_val (a : optarg) : val :=
  match a with
  | OUndefined => VUndefined
  | ONull => VNull
  | OObject l => VRef l
  end.

(** [Object.assign(target, source)]: throws on an [undefined] or [null]
    target, otherwise assigns every own property of the source to the
    target and returns the target. *)
Definition Object_assign (target : optarg) (source : val) : M heap loc :=
  match target with
  | OObject t =>
      match source with
      | VRef s =>
          λ h, (map_fold (λ k v h', set_prop h' t k v) h
                  (match h !! s with Some o => own o | None => ∅ end),
                inr t)
      | _ => ret t
      end
  | _ => throw (TypeError "Cannot convert undefined or null to object")
  end.

(** The default structure written in the source. *)
Definition default_margin : list (string * lit) :=
  [ ("top", LNum 120);
    ("right", LNum 50);
    ("bottom", LNum 150);
    ("left", LNum 150) ].

Definition defaults : list (string * lit) :=
  [ ("width", LNum 900);
    ("height", LNum 500);
    ("margin", LObj default_margin) ].

(** The class [D3Container] returned by the factory: what it closes
    over, and its static [displayName]. *)
Record component := Component {
  initFn : val;
  renderFn : val;
  options : loc;
  displayName : val
}.

Definition d3Conduit (initFn renderFn : val) (originalOptions : optarg)
    : M heap component :=
  λ h,
    if decide (typeof h initFn ≠ "function") then
      throw (Error "must provide an initialise function") h
    else if decide (typeof h renderFn ≠ "function") then
      throw (Error "must provide a render function") h
    else
      let '(h1, merged) := defaultsDeep (optarg_val originalOptions) defaults h in
      (let* options := Object_assign originalOptions merged in
       let* displayName := gets (λ h', get h' options "displayName") in
       ret (Component initFn renderFn options displayName)) h1.

(** ** Strings: [parseInt], template literals, d3's type names *)

(** The value of a digit in radix up to 36. *)
Definition digit_val (c : Ascii.ascii) : option Z :=
  let n := Z.of_N (Ascii.N_of_ascii c) in
  if (48 <=? n) && (n <=? 57) then Some (n - 48)
  else if (97 <=? n) && (n <=? 122) then Some (n - 87)
  else if (65 <=? n) && (n <=? 90) then Some (n - 55)
  else None.

(** The longest prefix of digits of the radix, as a number; [None] when
    there is no digit. *)
Fixpoint digits (radix : Z) (s : string) (acc : option Z) : option Z :=
  match s with
  | String c s' =>
      match digit_val c with
      | Some d =>
          if d <? radix then digits radix s' (Some (default 0 acc * radix + d))
          else acc
      | None => acc
      end
  | EmptyString => acc
  end.

(** The string without its leading white space; of the characters
    [parseInt] skips, the ones of ASCII are covered. *)
Fixpoint skip_space (s : string) : string :=
  match s with
  | String c s' => if Ascii.is_space c then skip_space s' else s
  | EmptyString => s
  end.

(** A number as the code meets it: the result of [parseInt], an integer
    or [NaN].  The integer is the one JavaScript computes as long as it
    is below [2^53] in size, the range in which its numbers are exact
    integers and are printed digit by digit; the lengths of a computed
    style are far inside that range, and what is proved of larger ones
    says so. *)
Inductive num :=
  | NaN
  | Int (n : Z).

(** [parseInt(s, 0)]: leading white space, a sign, a [0x] prefix
    (radix 0 lets the prefix choose 16 over 10), then digits. *)
Definition parseInt (s : string) : num :=
  let s := skip_space s in
  let '(sign, s) :=
    match s with
    | String "-"%char s' => (-1, s')
    | String "+"%char s' => (1, s')
    | _ => (1, s)
    end in
  let '(radix, s) :=
    match s with
    | String "0"%char (String "x"%char s') => (16, s')
    | String "0"%char (String "X"%char s') => (16, s')
    | _ => (10, s)
    end in
  match digits radix s None with
  | Some n => Int (sign * n)
  | None => NaN
  end.

(** [`${n}`] *)
Definition num_to_string (n : num) : string :=
  match n with
  | NaN => "NaN"
  | Int n => pretty n
  end.

(** The fields of a string between single white-space characters. *)
Fixpoint fields (s : string) : list string :=
  match s with
  | EmptyString => [""]
  | String c s' =>
      if Ascii.is_space c then "" :: fields s'
      else match fields s' with
           | w :: ws => String c w :: ws
           | [] => [String c ""]
           end
  end.

(** A type name [type.name] of d3: the name is what follows the first
    dot. *)
Fixpoint parseTypename (t : string) : string * string :=
  match t with
  | EmptyString => ("", "")
  | String c t' =>
      if decide (c = "."%char) then ("", t')
      else let '(type, name) := parseTypename t' in (String c type, name)
  end.

(** [typenames.trim().split(/^|\s+/).map(...)]: the words of the
    string, each split at its first dot. *)
Definition parseTypenames (typenames : string) : list (string * string) :=
  parseTypename <$> filter (λ w, w ≠ "") (fields typenames).

(** ** The DOM, the listeners on [window], and the log of effects *)

Definition node := positive.

(** An element as the adapter meets it: the attributes it reads and
    writes, the style the browser reports for it (by property name), and
    whether it still has a parent. *)
Record element := Element {
  attrs : gmap string string;
  computed : gmap string string;
  attached : bool
}.

(** The closures the program registers as listeners: only [resize] of
    [makeResponsiveSVG], closed over the selection it was called with. *)
Inductive handler :=
  | ResizeOf (svg : option node).

(** An entry of d3's [__on] list of a node. *)
Record listener := Listener {
  l_type : string;
  l_name : string;
  l_value : handler
}.

(** Which of the two callbacks a call was made to. *)
Inductive role := Init | Render.

(** What the log records: the node handed to the [ref], a call of a
    callback with its arguments, an attribute written, a listener
    registered on [window], a node leaving its parent, a handler run by
    an event. *)
Inductive effect :=
  | Bound (n : option node)
  | Called (r : role) (f : val) (n : option node) (data : val) (opts : loc)
  | AttrSet (n : node) (name value : string)
  | Listening (type name : string) (value : handler)
  | Detached (n : node)
  | Handled (type name : string) (value : handler).

Global Instance handler_eq_dec : EqDecision handler.
Proof. solve_decision. Defined.
Global Instance role_eq_dec : EqDecision role.
Proof. solve_decision. Defined.
Global Instance effect_eq_dec : EqDecision effect.
Proof. solve_decision. Defined.

Record world := World {
  nodes : gmap node element;
  window_on : list listener;
  log : list effect
}.

Definition emit (e : effect) : M world () :=
  modify (λ w, World (nodes w) (window_on w) (log w ++ [e])).

(** *** d3-selection, on a selection of at most one node *)

(** [select(node)]: [node] may be [null]. *)
Definition selection := option node.

(** [selection.style(name)]: the value for the first node, the empty
    string when the property has none; on the empty selection
    [node.style] is read off [null]. *)
Definition style (svg : selection) (name : string) : M world string :=
  match svg with
  | Some n =>
      gets (λ w, default "" (e ← nodes w !! n; computed e !! name))
  | None => throw (TypeError "Cannot read properties of null (reading 'style')")
  end.

(** [selection.attr(name, value)] *)
Definition attr_set (svg : selection) (name value : string) : M world () :=
  match svg with
  | Some n =>
      let* _ := modify (λ w,
        World (alter (λ e, Element (<[name := value]> (attrs e))
                                   (computed e) (attached e)) n (nodes w))
              (window_on w) (log w)) in
      emit (AttrSet n name value)
  | None => ret ()
  end.

(** [selection.attr(name)]: [null] when the attribute is missing. *)
Definition attr_get (svg : selection) (name : string)
    : M world (option string) :=
  match svg with
  | Some n => gets (λ w, e ← nodes w !! n; attrs e !! name)
  | None =>
      throw (TypeError "Cannot read properties of null (reading 'getAttribute')")
  end.

(** [selection.remove()]: the node leaves its parent, if it has one. *)
Definition remove (svg : selection) : M world () :=
  match svg with
  | Some n =>
      λ w, match nodes w !! n with
           | Some e =>
               if attached e then
                 (let* _ := modify (λ w,
                    World (<[n := Element (attrs e) (computed e) false]> (nodes w))
                          (window_on w) (log w)) in
                  emit (Detached n)) w
               else ret () w
           | None => ret () w
           end
  | None => ret ()
  end.

(** [onAdd]: an entry of the same type and name is replaced, otherwise
    the new entry is pushed.  (The browser runs a replaced listener
    after the others of its event; no property below depends on the
    order in which the listeners of one event run.) *)
Fixpoint onAdd (type name : string) (value : handler) (on : list listener)
    : list listener :=
  match on with
  | [] => [Listener type name value]
  | o :: on' =>
      if decide (l_type o = type ∧ l_name o = name)
      then Listener type name value :: on'
      else o :: onAdd type name value on'
  end.

(** [select(window).on(typenames, value)] *)
Definition window_on_add (typenames : string) (value : handler) : M world () :=
  foldr (λ '(type, name) k,
           let* _ := modify (λ w,
             World (nodes w) (onAdd type name value (window_on w)) (log w)) in
           let* _ := emit (Listening type name value) in
           k)
        (ret ()) (parseTypenames typenames).

(** The body of the closure [resize] of [makeResponsiveSVG]. *)
Definition resize (svg : selection) : M world () :=
  let* _ := attr_set svg "width" "100%" in
  attr_set svg "height" "100%".

Definition run_handler (l : listener) : M world () :=
  let* _ := emit (Handled (l_type l) (l_name l) (l_value l)) in
  match l_value l with
  | ResizeOf svg => resize svg
  end.

(** The browser dispatches an event of the given type on [window]:
    every listener of that type runs. *)
Definition dispatch (type : string) : M world () :=
  λ w, foldr (λ l k, if decide (l_type l = type)
                     then (let* _ := run_handler l in k) else k)
             (ret ()) (window_on w) w.

(** ** The component class [D3Container] *)

(** The props handed down by the parent: [data], and [className] when
    given ([None] is a [className] left out; a [className] of [null],
    which React would hand on as it is, is not among the props
    followed). *)
Record Props := mkProps {
  data : val;
  className : option string
}.

(** [static defaultProps] *)
Definition defaultProps (p : Props) : Props :=
  mkProps (data p) (Some (default "d3Conduit" (className p))).

(** The closure passed as second argument of [setState] in
    [componentWillReceiveProps]. *)
Inductive callback :=
  | CallRenderFn.

(** An instance: the fields the constructor and the [ref] assign, the
    state, and the [setState] calls React has queued.  [this_node] is
    [None] both before the [ref] is called (the field is [undefined])
    and after it was called with [null]. *)
Record instance := Instance {
  this_props : Props;
  this_width : val;
  this_height : val;
  this_options : loc;
  this_id : string;
  this_node : option node;
  this_state_data : val;
  queued : list (val * callback)
}.

(** The attributes [render] gives the [svg] element ([ref] apart). *)
Record svgProps := mkSvgProps {
  svg_className : option string;
  svg_width : val;
  svg_height : val;
  svg_id : string
}.

(** The text React writes for the value of an attribute: a number or
    a string is written, [undefined], [null], a boolean and a function
    give no attribute, and an ordinary object is written as
    [Object.prototype.toString] gives it. *)
Definition attr_text (h : heap) (v : val) : option string :=
  match v with
  | VNum n => Some (pretty n)
  | VStr s => Some s
  | VUndefined | VNull | VBool _ => None
  | VRef l =>
      match h !! l with
      | Some o => if callable o then None else Some "[object Object]"
      | None => None
      end
  end.

Definition set_attr (name : string) (value : option string)
    (a : gmap string string) : gmap string string :=
  match value with
  | Some s => <[name := s]> a
  | None => a
  end.

(** The attributes of the [svg] element React makes from what [render]
    returns: [class] from [className], [width], [height] and [id]. *)
Definition svg_attrs (h : heap) (el : svgProps) : gmap string string :=
  <["id" := svg_id el]>
    (set_attr "height" (attr_text h (svg_height el))
       (set_attr "width" (attr_text h (svg_width el))
          (set_attr "class" (svg_className el) ∅))).

Section D3Container.

(** What the class closes over: the two callbacks and the resolved
    options. *)
Variable C : component.
(** The heap when instances are made, from which the constructor reads
    [options.width] and [options.height]. *)
Variable h : heap.

(** [constructor(props)]; [id] is what [generate()] returns. *)
Definition constructor (props : Props) (id : string) : instance :=
  {| this_props := props;
     this_width := get h (options C) "width";
     this_height := get h (options C) "height";
     this_options := options C;
     this_id := id;
     this_node := None;
     this_state_data := data props;
     queued := [] |}.

Definition shouldComponentUpdate (self : instance) : bool := false.

(** [this.setState(partial, callback)]: React queues the update. *)
Definition setState (partial : val) (cb : callback) (self : instance)
    : instance :=
  {| this_props := this_props self;
     this_width := this_width self;
     this_height := this_height self;
     this_options := this_options self;
     this_id := this_id self;
     this_node := this_node self;
     this_state_data := this_state_data self;
     queued := queued self ++ [(partial, cb)] |}.

(** [makeResponsiveSVG(svg)] *)
Definition makeResponsiveSVG (self : instance) (svg : selection)
    : M world () :=
  let* sw := style svg "width" in
  let width := parseInt sw in
  let* sh := style svg "height" in
  let height := parseInt sh in
  let* _ := attr_set svg "viewBox"
              ("0 0 " +:+ num_to_string width +:+ " " +:+ num_to_string height) in
  let* _ := attr_set svg "preserveAspectRatio" "xMinYMid" in
  let* _ := resize svg in
  let* id := attr_get svg "id" in
  window_on_add ("resize." +:+ default "null" id) (ResizeOf svg).

Definition componentDidMount (self : instance) : M world () :=
  let* _ := emit (Called Init (initFn C) (this_node self)
                    (this_state_data self) (options C)) in
  let* _ := emit (Called Render (renderFn C) (this_node self)
                    (this_state_data self) (options C)) in
  makeResponsiveSVG self (this_node self).

Definition componentWillReceiveProps (next : Props) (self : instance)
    : instance :=
  setState (data next) CallRenderFn self.

Definition componentWillUnmount (self : instance) : M world () :=
  remove (this_node self).

(** The [ref] closure of [render]. *)
Definition ref (n : option node) (self : instance) : instance :=
  {| this_props := this_props self;
     this_width := this_width self;
     this_height := this_height self;
     this_options := this_options self;
     this_id := this_id self;
     this_node := n;
     this_state_data := this_state_data self;
     queued := queued self |}.

Definition render (self : instance) : svgProps :=
  {| svg_className :=
       match className (this_props self) with
       | Some "" | None => None
       | Some c => Some c
       end;
     svg_width := this_width self;
     svg_height := this_height self;
     svg_id := this_id self |}.

(** The closure queued by [componentWillReceiveProps], when React
    runs it. *)
Definition run_callback (cb : callback) (self : instance) : M world () :=
  match cb with
  | CallRenderFn =>
      emit (Called Render (renderFn C) (this_node self)
              (this_state_data self) (options C))
  end.

(** *** React, as far as it drives one instance *)

(** React makes the [svg] element [render] asked for: a node not in
    use, carrying the attributes of the element, styled by the browser
    with [css], inside its parent [div]. *)
Definition createElement (el : svgProps) (css : gmap string string)
    : M world node :=
  λ w, let n := fresh (dom (nodes w)) in
       (World (<[n := Element (svg_attrs h el) css true]> (nodes w))
              (window_on w) (log w),
        inr n).

(** Render and attach the [ref]. *)
Definition attach_ref (n : option node) (self : instance)
    : M world instance :=
  let* _ := emit (Bound n) in ret (ref n self).

(** Mounting: constructor, [render], the element and its [ref], then
    [componentDidMount]. *)
Definition mount (props : Props) (id : string) (css : gmap string string)
    : M world instance :=
  let self := constructor (defaultProps props) id in
  let* n := createElement (render self) css in
  let* self := attach_ref (Some n) self in
  let* _ := componentDidMount self in
  ret self.

(** React applies the queued state updates: the last [data] wins, the
    callbacks are kept for the commit. *)
Definition processUpdateQueue (self : instance) : instance * list callback :=
  ({| this_props := this_props self;
      this_width := this_width self;
      this_height := this_height self;
      this_options := this_options self;
      this_id := this_id self;
      this_node := this_node self;
      this_state_data :=
        foldl (λ _ u, u.1) (this_state_data self) (queued self);
      queued := [] |},
   (queued self).*2).

Definition set_props (next : Props) (self : instance) : instance :=
  {| this_props := next;
     this_width := this_width self;
     this_height := this_height self;
     this_options := this_options self;
     this_id := this_id self;
     this_node := this_node self;
     this_state_data := this_state_data self;
     queued := queued self |}.

(** The parent renders again and hands props down:
    [componentWillReceiveProps], the queued state, then
    [shouldComponentUpdate]; only when that allows it is [render]
    called again (and its new [ref] attached); the [setState]
    callbacks run at the commit. *)
Definition receiveProps (next : Props) (self : instance)
    : M world instance :=
  let next := defaultProps next in
  let self := componentWillReceiveProps next self in
  let '(self, cbs) := processUpdateQueue self in
  let self := set_props next self in
  let* self :=
    (if shouldComponentUpdate self
     then (let _ := render self in attach_ref (this_node self) self)
     else ret self) in
  let* _ := foldr (λ cb k, let* _ := run_callback cb self in k) (ret ()) cbs in
  ret self.

(** Unmounting: [componentWillUnmount], then the [ref] is called with
    [null]. *)
Definition unmount (self : instance) : M world instance :=
  let* _ := componentWillUnmount self in
  attach_ref None self.

(** What can happen to a mounted instance. *)
Inductive host_event :=
  | Deliver (next : Props)
  | ViewportResize.

Definition host_step (ev : host_event) (self : instance)
    : M world instance :=
  match ev with
  | Deliver next => receiveProps next self
  | ViewportResize => let* _ := dispatch "resize" in ret self
  end.

Fixpoint run (evs : list host_event) (self : instance) : M world instance :=
  match evs with
  | [] => ret self
  | ev :: evs' => let* self := host_step ev self in run evs' self
  end.

End D3Container.

(** ** Vocabulary of the properties *)

(** Every property that has a value keeps it. *)
Definition defined_kept (h h' : heap) : Prop :=
  ∀ l k, get h l k ≠ VUndefined → get h' l k = get h l k.

(** Objects stay where they are. *)
Definition objects_kept (h h' : heap) : Prop :=
  ∀ l, is_Some (h !! l) → is_Some (h' !! l).

(** Induction on literals, with the hypothesis on every member of an
    object literal. *)
Section lit_induction.
Variable P : lit → Prop.
Hypothesis P_num : ∀ n, P (LNum n).
Hypothesis P_obj : ∀ fs, Forall (λ kv, P kv.2) fs → P (LObj fs).

Fixpoint lit_members_ind (x : lit) : P x :=
  match x with
  | LNum n => P_num n
  | LObj fs =>
      P_obj fs
        ((fix go (fs : list (string * lit)) : Forall (λ kv, P kv.2) fs :=
            match fs with
            | [] => List.Forall_nil _
            | kv :: fs' =>
                @List.Forall_cons _ _ kv fs' (lit_members_ind kv.2) (go fs')
            end) fs)
  end.
End lit_induction.

(** The heap of the example of the specification: two functions, and
    the caller's options [{width: 400, margin: {top: 10}}]. *)
Definition example_heap : heap :=
  {[ 1%positive := Obj true ∅;
     2%positive := Obj true ∅;
     3%positive := Obj false {[ "width" := VNum 400;
                                "margin" := VRef 4%positive ]};
     4%positive := Obj false {[ "top" := VNum 10 ]} ]}.

(** The same heap once the options are resolved:
    [{width: 400, height: 500,
      margin: {top: 10, right: 50, bottom: 150, left: 150}}]. *)
Definition example_resolved : heap :=
  {[ 1%positive := Obj true ∅;
     2%positive := Obj true ∅;
     3%positive := Obj false {[ "width" := VNum 400;
                                "height" := VNum 500;
                                "margin" := VRef 4%positive ]};
     4%positive := Obj false {[ "top" := VNum 10;
                                "right" := VNum 50;
                                "bottom" := VNum 150;
                                "left" := VNum 150 ]} ]}.

(** The calls of the two callbacks a log records, by role, each with
    the node, the data and the options it was given. *)
Definition call_of (r : role) (e : effect)
    : option (val * option node * val * loc) :=
  match e with
  | Called r' f n d o => if decide (r' = r) then Some (f, n, d, o) else None
  | _ => None
  end.

Definition calls (r : role) (es : list effect) := omap (call_of r) es.

(** The nodes a log records as handed to the [ref]. *)
Definition bounds (es : list effect) : list (option node) :=
  omap (λ e, match e with Bound n => Some n | _ => None end) es.

(** The handlers a log records as run for a type name. *)
Definition handled (type name : string) (es : list effect) : list handler :=
  omap (λ e, match e with
             | Handled t nm v =>
                 if decide (t = type ∧ nm = name) then Some v else None
             | _ => None
             end) es.

(** The handlers registered on [window] under a type name. *)
Definition registered (type name : string) (on : list listener)
    : list handler :=
  l_value <$> filter (λ o, l_type o = type ∧ l_name o = name) on.

(** The data values delivered by a sequence of host events. *)
Definition delivered (evs : list host_event) : list val :=
  omap (λ ev, match ev with
              | Deliver next => Some (data next)
              | ViewportResize => None
              end) evs.

(** The identifiers [generate()] returns: shortid draws them from the
    letters, the digits, [_] and [-]. *)
Definition is_id_char (c : Ascii.ascii) : bool :=
  let n := Z.of_N (Ascii.N_of_ascii c) in
  ((48 <=? n) && (n <=? 57)) || ((97 <=? n) && (n <=? 122))
  || ((65 <=? n) && (n <=? 90)) || (n =? 95) || (n =? 45).

Fixpoint id_chars (s : string) : bool :=
  match s with
  | EmptyString => true
  | String c s' => is_id_char c && id_chars s'
  end.

Fixpoint has_space (s : string) : bool :=
  match s with
  | EmptyString => false
  | String c s' => Ascii.is_space c || has_space s'
  end.

(** The attributes of an [svg] element that had the attributes [a],
    once [makeResponsiveSVG] has run on it. *)
Definition sized_attrs (a : gmap string string) (css : gmap string string)
    : gmap string string :=
  <["height" := "100%"]>
    (<["width" := "100%"]>
       (<["preserveAspectRatio" := "xMinYMid"]>
          (<["viewBox" := "0 0 "
                +:+ num_to_string (parseInt (default "" (css !! "width")))
                +:+ " "
                +:+ num_to_string (parseInt (default "" (css !! "height")))]>
             a))).

(** The attributes of the [svg] element of an instance after its
    mount. *)
Definition mounted_attrs (C : component) (h : heap) (p : Props) (id : string)
    (css : gmap string string) : gmap string string :=
  sized_attrs (svg_attrs h (render (constructor C h (defaultProps p) id))) css.

(** What a handler does to the nodes, and what it logs, when run. *)
Definition resized (v : handler) (ns : gmap node element)
    : gmap node element :=
  match v with
  | ResizeOf (Some n) =>
      alter (λ e, Element (<["height" := "100%"]>
                             (<["width" := "100%"]> (attrs e)))
                          (computed e) (attached e)) n ns
  | ResizeOf None => ns
  end.

Definition handler_effects (l : listener) : list effect :=
  Handled (l_type l) (l_name l) (l_value l) ::
  match l_value l with
  | ResizeOf (Some n) =>
      [AttrSet n "width" "100%"; AttrSet n "height" "100%"]
  | ResizeOf None => []
  end.

(** The nodes are the same and, attributes apart, as they were. *)
Definition nodes_still (ns ns' : gmap node element) : Prop :=
  ∀ n, match ns !! n, ns' !! n with
       | Some e, Some e' => attached e' = attached e ∧ computed e' = computed e
       | None, None => True
       | _, _ => False
       end.

(** The coordinate rectangle [makeResponsiveSVG] writes for a computed
    style. *)
Definition viewBox_of (css : gmap string string) : string :=
  "0 0 " +:+ num_to_string (parseInt (default "" (css !! "width")))
         +:+ " "
         +:+ num_to_string (parseInt (default "" (css !! "height"))).

(** The effects of mounting, in order, for the node [n] made for the
    instance and the type names its handler is registered under. *)
Definition mount_effects (C : component) (n : node) (d : val)
    (css : gmap string string) (tns : list (string * string)) : list effect :=
  [ Bound (Some n);
    Called Init (initFn C) (Some n) d (options C);
    Called Render (renderFn C) (Some n) d (options C);
    AttrSet n "viewBox" (viewBox_of css);
    AttrSet n "preserveAspectRatio" "xMinYMid";
    AttrSet n "width" "100%";
    AttrSet n "height" "100%" ] ++
  ((λ tn, Listening tn.1 tn.2 (ResizeOf (Some n))) <$> tns).



(** Objects stay where they are, functions stay functions. *)
Definition callable_kept (h h' : heap) : Prop :=
  ∀ l o, h !! l = Some o → ∃ o', h' !! l = Some o' ∧ callable o' = callable o.

(** The keys the defaults of the source can write. *)
Definition default_keys : list string :=
  ["width"; "height"; "margin"; "top"; "right"; "bottom"; "left"].

(** What may follow the digits of a length: nothing, or a character
    that is no decimal digit (and, after a lone [0], no [x]), as the
    [px] or the [.5px] of a computed style. *)
Definition stops_number (rest : string) : bool :=
  match rest with
  | EmptyString => true
  | String c _ =>
      match digit_val c with
      | None => true
      | Some d => (10 <=? d) && negb (d =? 33)
      end
  end.

(** * Properties *)

(** ** The heap *)

Section heap_facts.
Implicit Types (h : heap) (l t : loc) (k : string) (v : val).

Lemma get_set_prop_same h l k v :
  is_Some (h !! l) → get (set_prop h l k v) l k = v.
Proof.
  intros [o Ho]. unfold get, set_prop.
  rewrite lookup_alter_eq, Ho. simpl. by rewrite lookup_insert_eq.
Qed.

Lemma get_set_prop_other h l k v l' k' :
  ¬ (l' = l ∧ k' = k) → get (set_prop h l k v) l' k' = get h l' k'.
Proof.
  intros Hne. unfold get, set_prop. rewrite lookup_alter.
  case_decide as Hl; [subst l'|done].
  destruct (h !! l) as [o|]; simpl; [|done].
  rewrite lookup_insert_ne; [done|]. intros ->. by apply Hne.
Qed.

Lemma set_prop_is_Some h l k v l' :
  is_Some (set_prop h l k v !! l') ↔ is_Some (h !! l').
Proof.
  unfold set_prop. rewrite lookup_alter. case_decide; [subst|done].
  by rewrite fmap_is_Some.
Qed.

Lemma set_prop_id h l k v o :
  h !! l = Some o → own o !! k = Some v → set_prop h l k v = h.
Proof.
  intros Ho Hk. unfold set_prop. apply alter_id. intros o' Ho'.
  assert (o' = o) as -> by congruence.
  destruct o as [c ps]; simpl in *. f_equal. by apply insert_id.
Qed.

Lemma alloc_fresh h : h !! (alloc h).1 = None.
Proof. simpl. apply not_elem_of_dom, is_fresh. Qed.

Lemma get_alloc h l k : get (alloc h).2 l k = get h l k.
Proof.
  unfold get. simpl. destruct (decide (fresh (dom h) = l)) as [<-|Hne].
  - rewrite lookup_insert_eq. simpl. rewrite lookup_empty. simpl.
    pose proof (alloc_fresh h) as Hf. simpl in Hf. by rewrite Hf.
  - by rewrite lookup_insert_ne.
Qed.

Lemma alloc_is_Some h l : is_Some (h !! l) → is_Some ((alloc h).2 !! l).
Proof.
  intros Hl. simpl. destruct (decide (fresh (dom h) = l)) as [<-|Hne].
  - by rewrite lookup_insert_eq.
  - by rewrite lookup_insert_ne.
Qed.

Lemma defined_kept_refl h : defined_kept h h.
Proof. by intros l k _. Qed.

Lemma defined_kept_trans h1 h2 h3 :
  defined_kept h1 h2 → defined_kept h2 h3 → defined_kept h1 h3.
Proof.
  intros H12 H23 l k Hd. rewrite H23; rewrite H12; done.
Qed.

Lemma defined_kept_set_prop h h' l k v :
  defined_kept h h' → get h l k = VUndefined →
  defined_kept h (set_prop h' l k v).
Proof.
  intros Hk Hu l' k' Hd. rewrite get_set_prop_other; [by apply Hk|].
  intros [-> ->]. done.
Qed.

Lemma defined_kept_alloc h : defined_kept h (alloc h).2.
Proof. intros l k _. apply get_alloc. Qed.

End heap_facts.

(** ** lodash [defaultsDeep] *)

Section merge_facts.
Implicit Types (h : heap) (l t : loc) (k : string) (v : val).

Lemma mergeValue_obj fs k l h :
  mergeValue (LObj fs) k l h =
    match get h l k with
    | VRef t => baseMerge fs t h
    | VUndefined =>
        let '(t, h1) := alloc h in
        set_prop (baseMerge fs t h1) l k (VRef t)
    | _ => h
    end.
Proof. simpl. by destruct (get h l k). Qed.

Lemma baseMerge_Forall (R : heap → heap → Prop) fs :
  (∀ h, R h h) → (∀ h1 h2 h3, R h1 h2 → R h2 h3 → R h1 h3) →
  Forall (λ kv, ∀ k l h, R h (mergeValue kv.2 k l h)) fs →
  ∀ l h, R h (baseMerge fs l h).
Proof.
  intros Hrefl Htrans. induction 1 as [|[k sv] fs Hsv _ IH]; intros l h.
  - apply Hrefl.
  - simpl. eapply Htrans; [apply Hsv|apply IH].
Qed.

(** The merge never overwrites a property that has a value. *)
Lemma mergeValue_kept sv : ∀ k l h, defined_kept h (mergeValue sv k l h).
Proof.
  induction sv as [n|fs IH] using lit_members_ind; intros k l h.
  - simpl. destruct (get h l k) eqn:Hg; try apply defined_kept_refl.
    by apply defined_kept_set_prop; [apply defined_kept_refl|].
  - rewrite mergeValue_obj.
    pose proof (baseMerge_Forall defined_kept fs defined_kept_refl
                  defined_kept_trans IH) as Hfs.
    destruct (get h l k) eqn:Hg; try apply defined_kept_refl.
    + destruct (alloc h) as [t h1] eqn:Ha.
      apply defined_kept_set_prop; [|done].
      eapply defined_kept_trans; [|apply Hfs].
      replace h1 with (alloc h).2 by (by rewrite Ha).
      apply defined_kept_alloc.
    + apply Hfs.
Qed.

Lemma baseMerge_kept fs l h : defined_kept h (baseMerge fs l h).
Proof.
  apply baseMerge_Forall;
    [apply defined_kept_refl|apply defined_kept_trans|].
  apply Forall_forall. intros kv _ k l' h'. apply mergeValue_kept.
Qed.

Lemma objects_kept_refl h : objects_kept h h.
Proof. by intros l. Qed.

Lemma objects_kept_trans h1 h2 h3 :
  objects_kept h1 h2 → objects_kept h2 h3 → objects_kept h1 h3.
Proof. intros H12 H23 l Hl. auto. Qed.

Lemma mergeValue_objects sv : ∀ k l h, objects_kept h (mergeValue sv k l h).
Proof.
  induction sv as [n|fs IH] using lit_members_ind; intros k l h.
  - simpl. destruct (get h l k); try apply objects_kept_refl.
    intros l' Hl'. by apply set_prop_is_Some.
  - rewrite mergeValue_obj.
    pose proof (baseMerge_Forall objects_kept fs objects_kept_refl
                  objects_kept_trans IH) as Hfs.
    destruct (get h l k) eqn:Hg; try apply objects_kept_refl.
    + destruct (alloc h) as [t h1] eqn:Ha. intros l' Hl'.
      apply set_prop_is_Some, Hfs.
      replace h1 with (alloc h).2 by (by rewrite Ha).
      by apply alloc_is_Some.
    + apply Hfs.
Qed.

Lemma baseMerge_objects fs l h : objects_kept h (baseMerge fs l h).
Proof.
  apply baseMerge_Forall;
    [apply objects_kept_refl|apply objects_kept_trans|].
  apply Forall_forall. intros kv _ k l' h'. apply mergeValue_objects.
Qed.

(** After the merge of a key, the key has a value. *)
Lemma mergeValue_defined sv k l h :
  is_Some (h !! l) → get (mergeValue sv k l h) l k ≠ VUndefined.
Proof.
  intros Hl. destruct (decide (get h l k = VUndefined)) as [Hu|Hd].
  - destruct sv as [n|fs].
    + simpl. rewrite Hu. by rewrite get_set_prop_same.
    + rewrite mergeValue_obj, Hu.
      destruct (alloc h) as [t h1] eqn:Ha.
      rewrite get_set_prop_same; [done|].
      apply baseMerge_objects.
      replace h1 with (alloc h).2 by (by rewrite Ha).
      by apply alloc_is_Some.
  - by rewrite (mergeValue_kept sv k l h l k Hd).
Qed.

Lemma baseMerge_defined fs l h k :
  k ∈ fs.*1 → is_Some (h !! l) → get (baseMerge fs l h) l k ≠ VUndefined.
Proof.
  revert h. induction fs as [|[k' sv] fs IH]; intros h Hk Hl; simpl in *.
  - by apply elem_of_nil in Hk.
  - destruct (decide (k ∈ fs.*1)) as [Hin|Hnin].
    + apply IH; [done|]. by apply mergeValue_objects.
    + apply elem_of_cons in Hk as [->|?]; [|done].
      pose proof (mergeValue_defined sv k' l h Hl) as Hd.
      by rewrite (baseMerge_kept fs l _ l k' Hd).
Qed.

(** A number of the source reaches the one property it is merged
    into, when that had no value. *)
Lemma get_mergeValue_num_eq n k l h :
  is_Some (h !! l) → get h l k = VUndefined →
  get (mergeValue (LNum n) k l h) l k = VNum n.
Proof. intros Hl Hu. simpl. rewrite Hu. by apply get_set_prop_same. Qed.

Lemma get_mergeValue_num_ne n k l h l' k' :
  ¬ (l' = l ∧ k' = k) →
  get (mergeValue (LNum n) k l h) l' k' = get h l' k'.
Proof.
  intros Hne. simpl. destruct (get h l k); try done.
  by apply get_set_prop_other.
Qed.

Lemma mergeValue_num_is_Some n k l h l' :
  is_Some (mergeValue (LNum n) k l h !! l') ↔ is_Some (h !! l').
Proof.
  simpl. destruct (get h l k); try done. apply set_prop_is_Some.
Qed.

End merge_facts.

(** ** The factory *)

Section factory_facts.
Implicit Types (h : heap) (l t : loc) (f g : val).

Lemma Object_assign_self t h :
  Object_assign (OObject t) (VRef t) h = (h, inr t).
Proof.
  unfold Object_assign. f_equal.
  destruct (h !! t) as [o|] eqn:Ho; [|by rewrite map_fold_empty].
  apply (map_fold_weak_ind (λ r m, m ⊆ own o → r = h)); [done| |done].
  intros k v m r Hk IH Hsub.
  rewrite IH.
  - apply (set_prop_id h t k v o Ho).
    eapply lookup_weaken; [|exact Hsub]. apply lookup_insert_eq.
  - etrans; [|exact Hsub]. by apply insert_subseteq.
Qed.

(** With two functions and an options object, the factory returns the
    class closed over them and over that same object, merged in
    place. *)
Lemma d3Conduit_object f g l h :
  typeof h f = "function" → typeof h g = "function" →
  d3Conduit f g (OObject l) h =
    (baseMerge defaults l h,
     inr (Component f g l (get (baseMerge defaults l h) l "displayName"))).
Proof.
  intros Hf Hg. unfold d3Conduit.
  rewrite decide_False by (by intros ?).
  rewrite decide_False by (by intros ?).
  change (defaultsDeep (optarg_val (OObject l)) defaults h)
    with (baseMerge defaults l h, VRef l).
  cbv beta iota. unfold bind. by rewrite Object_assign_self.
Qed.

Lemma d3Conduit_no_init f g a h :
  typeof h f ≠ "function" →
  d3Conduit f g a h = (h, inl (Error "must provide an initialise function")).
Proof. intros Hf. unfold d3Conduit. by rewrite decide_True. Qed.

Lemma d3Conduit_no_render f g a h :
  typeof h f = "function" → typeof h g ≠ "function" →
  d3Conduit f g a h = (h, inl (Error "must provide a render function")).
Proof.
  intros Hf Hg. unfold d3Conduit.
  rewrite decide_False by (by intros ?). by rewrite decide_True.
Qed.

(** A default number reaches the resolved options where the caller
    gave no value. *)
Lemma baseMerge_default_margin m h k n :
  is_Some (h !! m) → (k, LNum n) ∈ default_margin →
  get h m k = VUndefined →
  get (baseMerge default_margin m h) m k = VNum n.
Proof.
  intros Hm Hin Hu. unfold default_margin in *. cbn [baseMerge].
  repeat (apply elem_of_cons in Hin as [[= -> ->]|Hin]);
    [..|by apply elem_of_nil in Hin];
    repeat rewrite get_mergeValue_num_ne by (by intros [_ [=]]);
    (rewrite get_mergeValue_num_eq;
     [done
     |repeat apply mergeValue_objects; done
     |repeat rewrite get_mergeValue_num_ne by (by intros [_ [=]]); done]).
Qed.

End factory_facts.

Section factory_claims.
Implicit Types (h : heap) (l t : loc) (f g : val) (a : optarg).

Lemma d3Conduit_no_options f g a h :
  typeof h f = "function" → typeof h g = "function" →
  a = OUndefined ∨ a = ONull →
  (d3Conduit f g a h).2 =
    inl (TypeError "Cannot convert undefined or null to object").
Proof.
  intros Hf Hg Ha. unfold d3Conduit.
  rewrite decide_False by (by intros ?).
  rewrite decide_False by (by intros ?).
  by destruct Ha as [-> | ->].
Qed.

Lemma merged_width_height h l :
  is_Some (h !! l) →
  let h2 := mergeValue (LNum 500) "height" l
              (mergeValue (LNum 900) "width" l h) in
  (∀ l' k, k ≠ "width" → k ≠ "height" → get h2 l' k = get h l' k)
  ∧ (∀ l', is_Some (h2 !! l') ↔ is_Some (h !! l')).
Proof.
  intros Hl h2. split.
  - intros l' k Hw Hh. unfold h2.
    rewrite !get_mergeValue_num_ne; [done|..]; by intros [_ ?].
  - intros l'. unfold h2. by rewrite !mergeValue_num_is_Some.
Qed.

(** C4. Options resolution on the example of the specification:
    with the defaults of the source and the caller's
    [{width: 400, margin: {top: 10}}], the resolved options are
    [{width: 400, height: 500,
      margin: {top: 10, right: 50, bottom: 150, left: 150}}].
    In general the merge is recursive and the caller wins at every
    level: no property that has a value, in the options object or in
    any object below it, is changed; [width], [height] and [margin]
    have a value afterwards; a default number is filled in where the
    caller gave none, inside the caller's own [margin] object when
    there is one, and in a new object when there is none. *)
Theorem options_resolution :
  d3Conduit (VRef 1%positive) (VRef 2%positive) (OObject 3%positive)
      example_heap
    = (example_resolved,
       inr (Component (VRef 1%positive) (VRef 2%positive) 3%positive
              VUndefined))
  ∧ ∀ h f g l,
      typeof h f = "function" → typeof h g = "function" →
      is_Some (h !! l) →
      ∃ h' C,
        d3Conduit f g (OObject l) h = (h', inr C)
        ∧ options C = l
        ∧ defined_kept h h'
        ∧ (∀ k, k ∈ ["width"; "height"; "margin"] →
             get h' l k ≠ VUndefined)
        ∧ (get h l "width" = VUndefined → get h' l "width" = VNum 900)
        ∧ (get h l "height" = VUndefined → get h' l "height" = VNum 500)
        ∧ (∀ m, get h l "margin" = VRef m → is_Some (h !! m) →
             get h' l "margin" = VRef m
             ∧ ∀ k n, (k, LNum n) ∈ default_margin →
                 get h m k = VUndefined → get h' m k = VNum n)
        ∧ (get h l "margin" = VUndefined →
             ∃ t, h !! t = None ∧ get h' l "margin" = VRef t
               ∧ ∀ k n, (k, LNum n) ∈ default_margin →
                   get h' t k = VNum n).
Proof.
  split; [by vm_compute|].
  intros h f g l Hf Hg Hl.
  exists (baseMerge defaults l h),
    (Component f g l (get (baseMerge defaults l h) l "displayName")).
  split; [by apply d3Conduit_object|].
  split; [reflexivity|].
  split; [apply baseMerge_kept|].
  split.
  { intros k Hk. apply baseMerge_defined; [|done].
    unfold defaults. simpl. done. }
  pose proof (merged_width_height h l Hl) as [Hget Hsome].
  set (h2 := mergeValue (LNum 500) "height" l
               (mergeValue (LNum 900) "width" l h)) in *.
  assert (baseMerge defaults l h = mergeValue (LObj default_margin) "margin" l h2)
    as Hmerge by done.
  split.
  { intros Hu. rewrite Hmerge.
    assert (get h2 l "width" = VNum 900) as Hw.
    { unfold h2. rewrite get_mergeValue_num_ne by (by intros [_ ?]).
      by apply get_mergeValue_num_eq. }
    rewrite mergeValue_kept; by rewrite Hw. }
  split.
  { intros Hu. rewrite Hmerge.
    assert (get h2 l "height" = VNum 500) as Hh.
    { unfold h2. apply get_mergeValue_num_eq.
      - by apply mergeValue_num_is_Some.
      - by rewrite get_mergeValue_num_ne by (by intros [_ ?]). }
    rewrite mergeValue_kept; by rewrite Hh. }
  split.
  { intros m Hm Hsm. split.
    { rewrite baseMerge_kept; by rewrite Hm. }
    intros k n Hin Hu. rewrite Hmerge, mergeValue_obj.
    rewrite Hget, Hm by done.
    apply baseMerge_default_margin; [by apply Hsome|done|].
    rewrite Hget; [done|..];
      unfold default_margin in Hin;
      repeat (apply elem_of_cons in Hin as [[= -> ->]|Hin]);
      try done; by apply elem_of_nil in Hin. }
  intros Hu. rewrite Hmerge, mergeValue_obj.
  rewrite Hget, Hu by done.
  destruct (alloc h2) as [t h3] eqn:Ha.
  assert (h2 !! t = None) as Hfresh.
  { replace t with (alloc h2).1 by (by rewrite Ha). apply alloc_fresh. }
  assert (h3 = <[t := Obj false ∅]> h2) as Hh3.
  { unfold alloc in Ha. by injection Ha as <- <-. }
  assert (t ≠ l) as Htl.
  { intros ->. apply Hsome in Hl. rewrite Hfresh in Hl.
    by destruct Hl. }
  exists t. split.
  { apply eq_None_not_Some. intros Hs. apply Hsome in Hs.
    rewrite Hfresh in Hs. by destruct Hs. }
  split.
  { apply get_set_prop_same, baseMerge_objects.
    rewrite Hh3, lookup_insert_ne by done. by apply Hsome. }
  intros k n Hin. rewrite get_set_prop_other by (by intros [? _]).
  apply baseMerge_default_margin; [|done|].
  - rewrite Hh3, lookup_insert_eq. done.
  - unfold get. by rewrite Hh3, lookup_insert_eq.
Qed.

Lemma options_resolution_witness :
  typeof example_heap (VRef 1%positive) = "function"
  ∧ typeof example_heap (VRef 2%positive) = "function"
  ∧ is_Some (example_heap !! 3%positive)
  ∧ ∃ h' C,
      d3Conduit (VRef 1%positive) (VRef 2%positive) (OObject 3%positive)
        example_heap = (h', inr C)
      ∧ options C = 3%positive
      ∧ defined_kept example_heap h'.
Proof.
  assert (typeof example_heap (VRef 1%positive) = "function") as Hf
    by reflexivity.
  assert (typeof example_heap (VRef 2%positive) = "function") as Hg
    by reflexivity.
  assert (is_Some (example_heap !! 3%positive)) as Hl
    by (vm_compute; eauto).
  split; [exact Hf|]. split; [exact Hg|]. split; [exact Hl|].
  destruct (proj2 options_resolution example_heap (VRef 1%positive)
              (VRef 2%positive) 3%positive Hf Hg Hl)
    as (h' & C & Heq & Hopt & Hkept & _).
  exists h', C. split; [exact Heq|]. split; [exact Hopt|exact Hkept].
Defined.

(** C2, as the claim states it, fails: with two functions and the
    options argument left out the factory throws a [TypeError]. *)
Lemma factory_throws_without_options :
  ¬ (∀ h f g a,
       typeof h f = "function" → typeof h g = "function" →
       ∃ h' C, d3Conduit f g a h = (h', inr C)).
Proof.
  intros H.
  destruct (H example_heap (VRef 1%positive) (VRef 2%positive) OUndefined
              eq_refl eq_refl) as (h' & C & Heq).
  apply (f_equal snd) in Heq. simpl in Heq.
  rewrite d3Conduit_no_options in Heq by (done || by left).
  discriminate Heq.
Qed.

(** C2, amended. For every pair of functions as callbacks and every
    options argument that is an object, the factory call succeeds and
    returns the class closed over the two callbacks and that object;
    for every input where either callback is not a function the
    factory throws its configuration error at once: no class is
    returned, so no instance can be made. *)
Theorem factory_validates_callbacks h f g a :
  (typeof h f = "function" → typeof h g = "function" →
   ∀ l, a = OObject l →
     ∃ h' C, d3Conduit f g a h = (h', inr C)
       ∧ initFn C = f ∧ renderFn C = g ∧ options C = l)
  ∧ (typeof h f ≠ "function" ∨ typeof h g ≠ "function" →
     ∃ msg, d3Conduit f g a h = (h, inl (Error msg))).
Proof.
  split.
  - intros Hf Hg l ->. eexists _, _.
    split; [by apply d3Conduit_object|done].
  - intros Hbad.
    destruct (decide (typeof h f = "function")) as [Hf|Hf].
    + destruct Hbad as [?|Hg]; [done|].
      eexists. by apply d3Conduit_no_render.
    + eexists. by apply d3Conduit_no_init.
Qed.

Lemma factory_validates_callbacks_witness :
  (typeof example_heap (VRef 1%positive) = "function"
   ∧ typeof example_heap (VRef 2%positive) = "function"
   ∧ ∃ h' C,
       d3Conduit (VRef 1%positive) (VRef 2%positive) (OObject 3%positive)
         example_heap = (h', inr C)
       ∧ initFn C = VRef 1%positive ∧ renderFn C = VRef 2%positive
       ∧ options C = 3%positive)
  ∧ ((typeof example_heap (VRef 1%positive) ≠ "function"
      ∨ typeof example_heap (VNum 7) ≠ "function")
     ∧ ∃ msg,
         d3Conduit (VRef 1%positive) (VNum 7) (OObject 3%positive)
           example_heap = (example_heap, inl (Error msg))).
Proof.
  split.
  - split; [reflexivity|]. split; [reflexivity|].
    apply (proj1 (factory_validates_callbacks example_heap
                    (VRef 1%positive) (VRef 2%positive)
                    (OObject 3%positive)));
      reflexivity.
  - assert (typeof example_heap (VRef 1%positive) ≠ "function"
            ∨ typeof example_heap (VNum 7) ≠ "function") as Hbad
      by (right; vm_compute; discriminate).
    split; [exact Hbad|].
    exact (proj2 (factory_validates_callbacks example_heap
                    (VRef 1%positive) (VNum 7) (OObject 3%positive)) Hbad).
Defined.

(** C10. A configuration error leaves the heap, and with it the
    caller's options object, as it was: the callbacks are checked
    before the merge.  The initialisation callback is checked first:
    when neither callback is a function the error is the one for the
    missing initialise function. *)
Theorem configuration_error_atomic h f g a :
  (∀ h' msg, d3Conduit f g a h = (h', inl (Error msg)) →
     h' = h ∧ (typeof h f ≠ "function" ∨ typeof h g ≠ "function"))
  ∧ (typeof h f ≠ "function" → typeof h g ≠ "function" →
     d3Conduit f g a h =
       (h, inl (Error "must provide an initialise function"))).
Proof.
  split.
  - intros h' msg Heq.
    destruct (decide (typeof h f = "function")) as [Hf|Hf].
    + destruct (decide (typeof h g = "function")) as [Hg|Hg].
      * destruct a as [| |l].
        -- apply (f_equal snd) in Heq. simpl in Heq.
           rewrite d3Conduit_no_options in Heq by (done || by left).
           discriminate Heq.
        -- apply (f_equal snd) in Heq. simpl in Heq.
           rewrite d3Conduit_no_options in Heq by (done || by right).
           discriminate Heq.
        -- rewrite d3Conduit_object in Heq by done. discriminate Heq.
      * rewrite d3Conduit_no_render in Heq by done.
        injection Heq as <- _. by split; [|right].
    + rewrite d3Conduit_no_init in Heq by done.
      injection Heq as <- _. by split; [|left].
  - intros Hf _. by apply d3Conduit_no_init.
Qed.

Lemma configuration_error_atomic_witness :
  (d3Conduit VUndefined (VNum 7) (OObject 3%positive) example_heap
     = (example_heap, inl (Error "must provide an initialise function"))
   ∧ example_heap = example_heap
   ∧ (typeof example_heap VUndefined ≠ "function"
      ∨ typeof example_heap (VNum 7) ≠ "function"))
  ∧ (typeof example_heap VUndefined ≠ "function"
     ∧ typeof example_heap (VNum 7) ≠ "function"
     ∧ d3Conduit VUndefined (VNum 7) (OObject 3%positive) example_heap
         = (example_heap,
            inl (Error "must provide an initialise function"))).
Proof.
  assert (typeof example_heap VUndefined ≠ "function") as Hf
    by (vm_compute; discriminate).
  assert (typeof example_heap (VNum 7) ≠ "function") as Hg
    by (vm_compute; discriminate).
  pose proof (configuration_error_atomic example_heap VUndefined (VNum 7)
                (OObject 3%positive)) as [Hatomic Horder].
  pose proof (Horder Hf Hg) as Heq.
  split.
  - split; [exact Heq|]. exact (Hatomic _ _ Heq).
  - split; [exact Hf|]. split; [exact Hg|exact Heq].
Defined.

End factory_claims.

(** ** The world: d3 and the listeners on [window] *)

Section world_facts.
Implicit Types (w : world) (n : node) (v : handler) (on : list listener).

Lemma window_on_add_typenames v tns w :
  foldr (λ '(type, name) k,
           let* _ := modify (λ w,
             World (nodes w) (onAdd type name v (window_on w)) (log w)) in
           let* _ := emit (Listening type name v) in
           k)
        (ret ()) tns w =
    (World (nodes w)
           (foldl (λ on tn, onAdd tn.1 tn.2 v on) (window_on w) tns)
           (log w ++ ((λ tn, Listening tn.1 tn.2 v) <$> tns)),
     inr ()).
Proof.
  revert w. induction tns as [|[t nm] tns IH]; intros w; simpl.
  - unfold ret. rewrite app_nil_r. by destruct w.
  - unfold bind, modify, emit at 1. simpl. rewrite IH. simpl.
    by rewrite <- app_assoc.
Qed.
Lemma bind_inr {S A B} (m : M S A) (k : A → M S B) s s' a :
  m s = (s', inr a) → bind m k s = k a s'.
Proof. intros Hm. unfold bind. by rewrite Hm. Qed.

Lemma emit_spec e w :
  emit e w = (World (nodes w) (window_on w) (log w ++ [e]), inr ()).
Proof. done. Qed.

Lemma style_spec n name w e :
  nodes w !! n = Some e →
  style (Some n) name w = (w, inr (default "" (computed e !! name))).
Proof. intros He. unfold style, gets. by rewrite He. Qed.

Lemma attr_get_spec n name w e :
  nodes w !! n = Some e →
  attr_get (Some n) name w = (w, inr (attrs e !! name)).
Proof. intros He. unfold attr_get, gets. by rewrite He. Qed.

Lemma attr_set_spec n name value w e :
  nodes w !! n = Some e →
  attr_set (Some n) name value w =
    (World (<[n := Element (<[name := value]> (attrs e))
                           (computed e) (attached e)]> (nodes w))
           (window_on w) (log w ++ [AttrSet n name value]),
     inr ()).
Proof.
  intros He. unfold attr_set, bind, modify. simpl.
  rewrite emit_spec. simpl. do 2 f_equal.
  apply map_eq. intros i. rewrite lookup_alter, lookup_insert.
  case_decide; [subst; by rewrite He|done].
Qed.

Lemma resize_spec n w e :
  nodes w !! n = Some e →
  resize (Some n) w =
    (World (<[n := Element (<["height" := "100%"]>
                              (<["width" := "100%"]> (attrs e)))
                           (computed e) (attached e)]> (nodes w))
           (window_on w)
           (log w ++ [AttrSet n "width" "100%"; AttrSet n "height" "100%"]),
     inr ()).
Proof.
  intros He. unfold resize.
  erewrite bind_inr by (by apply attr_set_spec).
  erewrite attr_set_spec by (simpl; apply lookup_insert_eq).
  simpl. by rewrite insert_insert_eq, <- app_assoc.
Qed.

Lemma window_on_add_spec typenames v w :
  window_on_add typenames v w =
    (World (nodes w)
           (foldl (λ on tn, onAdd tn.1 tn.2 v on) (window_on w)
              (parseTypenames typenames))
           (log w ++ ((λ tn, Listening tn.1 tn.2 v) <$> parseTypenames typenames)),
     inr ()).
Proof. apply window_on_add_typenames. Qed.

(** [makeResponsiveSVG] on a node of the document. *)
Lemma makeResponsiveSVG_spec self n w e :
  nodes w !! n = Some e →
  let v := ResizeOf (Some n) in
  let tns := parseTypenames ("resize." +:+ default "null" (attrs e !! "id")) in
  let box := "0 0 "
    +:+ num_to_string (parseInt (default "" (computed e !! "width")))
    +:+ " "
    +:+ num_to_string (parseInt (default "" (computed e !! "height"))) in
  makeResponsiveSVG self (Some n) w =
    (World (<[n := Element
                     (<["height" := "100%"]>
                        (<["width" := "100%"]>
                           (<["preserveAspectRatio" := "xMinYMid"]>
                              (<["viewBox" := box]> (attrs e)))))
                     (computed e) (attached e)]> (nodes w))
           (foldl (λ on tn, onAdd tn.1 tn.2 v on) (window_on w) tns)
           (log w ++
              [ AttrSet n "viewBox" box;
                AttrSet n "preserveAspectRatio" "xMinYMid";
                AttrSet n "width" "100%";
                AttrSet n "height" "100%" ] ++
              ((λ tn, Listening tn.1 tn.2 v) <$> tns)),
     inr ()).
Proof.
  intros He v tns box. unfold makeResponsiveSVG.
  erewrite bind_inr by (by apply style_spec).
  erewrite bind_inr by (by apply style_spec).
  erewrite bind_inr by (by apply attr_set_spec).
  erewrite bind_inr by (apply attr_set_spec; simpl; apply lookup_insert_eq).
  erewrite bind_inr by (apply resize_spec; simpl; apply lookup_insert_eq).
  erewrite bind_inr by (apply attr_get_spec; simpl; apply lookup_insert_eq).
  rewrite window_on_add_spec. simpl.
  rewrite !insert_insert_eq.
  rewrite !lookup_insert_ne by done.
  fold v tns box. by rewrite <- !app_assoc.
Qed.

Lemma svg_attrs_id h el : svg_attrs h el !! "id" = Some (svg_id el).
Proof. unfold svg_attrs. apply lookup_insert_eq. Qed.

(** Mounting never throws: it makes one node, hands it to the
    [ref], calls the two callbacks, sizes the node and registers the
    resize handler under the type names read off [resize.<id>]. *)
Lemma mount_spec C h p id css w :
  let n := fresh (dom (nodes w)) in
  let v := ResizeOf (Some n) in
  let tns := parseTypenames ("resize." +:+ id) in
  mount C h p id css w =
    (World (<[n := Element (mounted_attrs C h p id css) css true]> (nodes w))
           (foldl (λ on tn, onAdd tn.1 tn.2 v on) (window_on w) tns)
           (log w ++ mount_effects C n (data p) css tns),
     inr (ref (Some n) (constructor C h (defaultProps p) id))).
Proof.
  intros n v tns. unfold mount.
  erewrite bind_inr by (unfold createElement; reflexivity).
  fold n. unfold attach_ref.
  erewrite bind_inr; [|erewrite bind_inr by apply emit_spec; reflexivity].
  unfold componentDidMount.
  erewrite bind_inr;
    [|erewrite bind_inr by apply emit_spec;
      erewrite bind_inr by apply emit_spec;
      apply makeResponsiveSVG_spec; apply lookup_insert_eq].
  unfold ret. cbn [nodes window_on log attrs computed attached this_node
                   this_state_data ref constructor defaultProps data
                   render svg_id this_id].
  rewrite insert_insert_eq, !svg_attrs_id.
  cbn [default from_option render constructor svg_id this_id].
  unfold Datatypes.id.
  fold v tns. unfold mounted_attrs, sized_attrs, mount_effects, viewBox_of.
  by rewrite <- !app_assoc.
Qed.

(** *** Type names *)

Lemma fields_no_space s : has_space s = false → fields s = [s].
Proof.
  induction s as [|c s IH]; intros Hs; simpl in *; [done|].
  apply orb_false_iff in Hs as [-> Hs]. by rewrite IH.
Qed.

Lemma id_chars_no_space s : id_chars s = true → has_space s = false.
Proof.
  induction s as [|c s IH]; intros Hs; simpl in *; [done|].
  apply andb_true_iff in Hs as [Hc Hs]. rewrite (IH Hs), orb_false_r.
  revert Hc. destruct c as [[] [] [] [] [] [] [] []]; by vm_compute.
Qed.

(** For an id of the generator, [resize.<id>] is one type name: the
    type [resize], the name the id. *)
Lemma parseTypenames_resize id :
  id_chars id = true →
  parseTypenames ("resize." +:+ id) = [("resize", id)].
Proof.
  intros Hid%id_chars_no_space. unfold parseTypenames.
  rewrite fields_no_space by exact Hid.
  rewrite (filter_singleton_True _ _ []) by (vm_compute; intros [=]).
  by vm_compute.
Qed.

(** *** Registration *)

Lemma registered_onAdd type name v on :
  registered type name (onAdd type name v on) =
    v :: tail (registered type name on).
Proof.
  unfold registered. induction on as [|o on IH]; simpl.
  - rewrite filter_cons, decide_True by done. done.
  - case_decide as Ho.
    + rewrite !filter_cons, !decide_True by done. done.
    + rewrite !filter_cons, !decide_False by done. done.
Qed.

Lemma registered_onAdd_other type name v on type' name' :
  ¬ (type' = type ∧ name' = name) →
  registered type' name' (onAdd type name v on) = registered type' name' on.
Proof.
  intros Hne. unfold registered. induction on as [|o on IH]; simpl.
  - rewrite filter_cons, decide_False; [done|].
    simpl. intros [<- <-]. by apply Hne.
  - case_decide as Ho.
    + destruct Ho as [Ht Hn].
      rewrite !filter_cons, !decide_False; [done|..];
        simpl; intros [<- <-]; by apply Hne.
    + rewrite !filter_cons.
      case_decide; [rewrite !fmap_cons; f_equal|]; exact IH.
Qed.

(** *** Dispatch *)

Lemma run_handler_spec l w :
  run_handler l w =
    (World (resized (l_value l) (nodes w)) (window_on w)
           (log w ++ handler_effects l),
     inr ()).
Proof.
  unfold run_handler. erewrite bind_inr by apply emit_spec.
  unfold handler_effects. destruct (l_value l) as [[n|]].
  - unfold resize, attr_set, bind, emit, modify. simpl.
    rewrite <- !app_assoc. simpl. f_equal. f_equal.
    apply map_eq. intros i. rewrite !lookup_alter.
    rewrite (decide_True (P := n = n)) by done.
    destruct (decide (n = i)); [|done]. by destruct (nodes w !! n).
  - done.
Qed.

Lemma dispatch_listeners type ls w :
  foldr (λ l k, if decide (l_type l = type)
                then (let* _ := run_handler l in k) else k)
        (ret ()) ls w =
    (World (foldl (λ ns l, resized (l_value l) ns) (nodes w)
              (filter (λ l, l_type l = type) ls))
           (window_on w)
           (log w ++ (filter (λ l, l_type l = type) ls ≫= handler_effects)),
     inr ()).
Proof.
  revert w. induction ls as [|l ls IH]; intros w; simpl.
  - unfold ret. rewrite app_nil_r. by destruct w.
  - rewrite filter_cons. case_decide; [|apply IH].
    erewrite bind_inr by apply run_handler_spec.
    rewrite IH. simpl. by rewrite <- app_assoc.
Qed.

(** A dispatch runs, in order, every listener of the type. *)
Lemma dispatch_spec type w :
  dispatch type w =
    (World (foldl (λ ns l, resized (l_value l) ns) (nodes w)
              (filter (λ l, l_type l = type) (window_on w)))
           (window_on w)
           (log w ++
              (filter (λ l, l_type l = type) (window_on w) ≫= handler_effects)),
     inr ()).
Proof. apply dispatch_listeners. Qed.

(** *** What the log of a dispatch holds *)

Lemma calls_app r es1 es2 : calls r (es1 ++ es2) = calls r es1 ++ calls r es2.
Proof. apply omap_app. Qed.

Lemma bounds_app es1 es2 : bounds (es1 ++ es2) = bounds es1 ++ bounds es2.
Proof. apply omap_app. Qed.

Lemma handled_app type name es1 es2 :
  handled type name (es1 ++ es2) =
    handled type name es1 ++ handled type name es2.
Proof. apply omap_app. Qed.

Lemma calls_called r r' f (on : option node) d o es :
  calls r (Called r' f on d o :: es) =
    if decide (r' = r) then (f, on, d, o) :: calls r es else calls r es.
Proof. unfold calls. cbn [omap list_omap call_of]. by case_decide. Qed.

Lemma handler_effects_calls r ls : calls r (ls ≫= handler_effects) = [].
Proof.
  induction ls as [|l ls IH]; [done|].
  rewrite bind_cons, calls_app, IH.
  unfold handler_effects. by destruct (l_value l) as [[n|]].
Qed.

Lemma handler_effects_bounds ls : bounds (ls ≫= handler_effects) = [].
Proof.
  induction ls as [|l ls IH]; [done|].
  rewrite bind_cons, bounds_app, IH.
  unfold handler_effects. by destruct (l_value l) as [[n|]].
Qed.

(** A dispatch logs, for a type name, the handlers registered
    under it. *)
Lemma handler_effects_handled type name ls :
  handled type name (ls ≫= handler_effects) =
    l_value <$> filter (λ o, l_type o = type ∧ l_name o = name) ls.
Proof.
  induction ls as [|l ls IH]; [done|].
  rewrite bind_cons, handled_app, IH, filter_cons.
  unfold handler_effects, handled. cbn [omap list_omap].
  case_decide; rewrite ?fmap_cons;
    by destruct (l_value l) as [[n|]].
Qed.

Lemma listening_calls r v tns :
  calls r ((λ tn, Listening tn.1 tn.2 v) <$> tns) = [].
Proof. by induction tns. Qed.

Lemma listening_bounds v tns :
  bounds ((λ tn, Listening tn.1 tn.2 v) <$> tns) = [].
Proof. by induction tns. Qed.

(** Mounting calls each callback once, on the node it made and with
    the data of the props, and hands the node to the [ref] once. *)
Lemma mount_effects_calls C n d css tns :
  calls Init (mount_effects C n d css tns) = [(initFn C, Some n, d, options C)]
  ∧ calls Render (mount_effects C n d css tns) =
      [(renderFn C, Some n, d, options C)]
  ∧ bounds (mount_effects C n d css tns) = [Some n].
Proof.
  unfold mount_effects.
  rewrite !calls_app, bounds_app, !listening_calls, listening_bounds.
  by vm_compute.
Qed.

(** A dispatch of a type runs, under each name, the handlers
    registered under that type and name. *)
Lemma dispatched_handled type name ls :
  handled type name
    (filter (λ l, l_type l = type) ls ≫= handler_effects) =
    registered type name ls.
Proof.
  rewrite handler_effects_handled. unfold registered. f_equal.
  induction ls as [|l ls IH]; [done|].
  rewrite !filter_cons. destruct (decide (l_type l = type)) as [Ht|Ht].
  - rewrite filter_cons. case_decide; by rewrite IH.
  - rewrite decide_False by (by intros [? _]). exact IH.
Qed.

(** *** The nodes *)

Lemma nodes_still_refl ns : nodes_still ns ns.
Proof. intros n. by destruct (ns !! n). Qed.

Lemma nodes_still_trans ns1 ns2 ns3 :
  nodes_still ns1 ns2 → nodes_still ns2 ns3 → nodes_still ns1 ns3.
Proof.
  intros H12 H23 n. specialize (H12 n). specialize (H23 n).
  destruct (ns1 !! n), (ns2 !! n), (ns3 !! n); try done.
  destruct H12, H23. split; congruence.
Qed.

Lemma nodes_still_resized v ns : nodes_still ns (resized v ns).
Proof.
  destruct v as [[n|]]; [|apply nodes_still_refl].
  intros i. simpl. rewrite lookup_alter.
  case_decide; [subst|]; by destruct (ns !! i).
Qed.

Lemma nodes_still_dispatched ls ns :
  nodes_still ns (foldl (λ ns l, resized (l_value l) ns) ns ls).
Proof.
  revert ns. induction ls as [|l ls IH]; intros ns; simpl.
  - apply nodes_still_refl.
  - eapply nodes_still_trans; [apply nodes_still_resized|apply IH].
Qed.

End world_facts.

(** ** The lifecycle of one instance *)

Section lifecycle_facts.
Variable C : component.
Implicit Types (w : world) (self : instance) (n : node).

(** New props reach the update callback once, with the node held and
    the data delivered; nothing else happens. *)
Lemma receiveProps_spec next self w :
  queued self = [] →
  receiveProps C next self w =
    (World (nodes w) (window_on w)
           (log w ++ [Called Render (renderFn C) (this_node self)
                        (data next) (options C)]),
     inr {| this_props := defaultProps next;
            this_width := this_width self;
            this_height := this_height self;
            this_options := this_options self;
            this_id := this_id self;
            this_node := this_node self;
            this_state_data := data next;
            queued := [] |}).
Proof.
  intros Hq. unfold receiveProps, componentWillReceiveProps, setState,
    processUpdateQueue, set_props, shouldComponentUpdate.
  cbn [queued this_props this_width this_height this_options this_id
       this_node this_state_data].
  rewrite Hq. cbn. by destruct w.
Qed.

Lemma unmount_spec self n e w :
  this_node self = Some n → nodes w !! n = Some e → attached e = true →
  unmount self w =
    (World (<[n := Element (attrs e) (computed e) false]> (nodes w))
           (window_on w) (log w ++ [Detached n; Bound None]),
     inr (ref None self)).
Proof.
  intros Hn He Ha. unfold unmount, componentWillUnmount, attach_ref.
  rewrite Hn. unfold remove, bind. rewrite He, Ha.
  cbn. by rewrite <- app_assoc.
Qed.

(** Between mount and unmount: the instance keeps its node, the
    listeners on [window] stay, no node comes or goes, and the log
    grows by one call of the update callback per delivery, with no
    call of the initialisation callback and no new [ref]. *)
Lemma run_spec evs : ∀ self w,
  queued self = [] →
  ∃ w' self' es,
    run C evs self w = (w', inr self')
    ∧ this_node self' = this_node self
    ∧ this_id self' = this_id self
    ∧ this_options self' = this_options self
    ∧ queued self' = []
    ∧ window_on w' = window_on w
    ∧ nodes_still (nodes w) (nodes w')
    ∧ log w' = log w ++ es
    ∧ calls Init es = []
    ∧ calls Render es =
        (λ d, (renderFn C, this_node self, d, options C)) <$> delivered evs
    ∧ bounds es = [].
Proof.
  induction evs as [|ev evs IH]; intros self w Hq.
  - exists w, self, []. rewrite app_nil_r.
    repeat split; try done. apply nodes_still_refl.
  - cbn [run]. destruct ev as [next|].
    + cbn [host_step]. erewrite bind_inr by (by apply receiveProps_spec).
      edestruct IH as (w' & self' & es & -> & Hn & Hi & Ho & Hq' & Hon
                       & Hns & Hlog & Hinit & Hrender & Hb); [done|].
      cbn in Hn, Hi, Ho, Hon, Hns, Hlog, Hrender.
      eexists w', self', (_ :: es).
      split; [done|]. rewrite Hlog, <- app_assoc.
      repeat split; try done.
      all: rewrite calls_called;
        (by rewrite decide_False) || (by rewrite decide_True, Hrender).
    + cbn [host_step].
      erewrite bind_inr;
        [|erewrite bind_inr by apply dispatch_spec; reflexivity].
      edestruct IH as (w' & self' & es & -> & Hn & Hi & Ho & Hq' & Hon
                       & Hns & Hlog & Hinit & Hrender & Hb); [done|].
      cbn in Hon, Hns, Hlog.
      eexists w', self', (_ ++ es).
      split; [done|]. rewrite Hlog, <- app_assoc.
      repeat split; try done.
      all: first
        [ eapply nodes_still_trans; [apply nodes_still_dispatched|done]
        | by rewrite calls_app, handler_effects_calls
        | by rewrite bounds_app, handler_effects_bounds ].
Qed.

End lifecycle_facts.

(** ** The lifecycle claims *)

Section lifecycle_claims.
Implicit Types (C : component) (h : heap) (p : Props) (id : string)
  (css : gmap string string) (w : world) (evs : list host_event).

(** The mounted instance and its world, for the proofs below. *)
Lemma mounted C h p id css w :
  let n := fresh (dom (nodes w)) in
  ∃ w1 self1,
    mount C h p id css w = (w1, inr self1)
    ∧ this_node self1 = Some n ∧ this_id self1 = id
    ∧ this_options self1 = options C ∧ queued self1 = []
    ∧ nodes w1 = <[n := Element (mounted_attrs C h p id css) css true]> (nodes w)
    ∧ window_on w1 =
        foldl (λ on tn, onAdd tn.1 tn.2 (ResizeOf (Some n)) on) (window_on w)
          (parseTypenames ("resize." +:+ id))
    ∧ log w1 = log w ++ mount_effects C n (data p) css
                          (parseTypenames ("resize." +:+ id)).
Proof.
  intros n. eexists _, _. split; [apply mount_spec|]. by cbn.
Qed.

(** C3, as the claim states it, fails: a hand-down of props whose
    data is the data the instance already holds (the parent rendered
    again, or changed another prop only) calls the update callback all
    the same. *)
Lemma redraw_without_new_data :
  ¬ (∀ C h p id css next w,
       data next = data p →
       ∃ w1 self1 w2 self2,
         mount C h p id css w = (w1, inr self1)
         ∧ receiveProps C next self1 w1 = (w2, inr self2)
         ∧ calls Render (log w2) = calls Render (log w1)).
Proof.
  intros H.
  destruct (H (Component (VRef 1%positive) (VRef 2%positive) 3%positive
                 VUndefined)
              example_resolved (mkProps (VNum 1) None) "abc" ∅
              (mkProps (VNum 1) (Some "other")) (World ∅ [] []) eq_refl)
    as (w1 & self1 & w2 & self2 & Hm & Hr & Hc).
  vm_compute in Hm. injection Hm as <- <-.
  vm_compute in Hr. injection Hr as <- <-.
  vm_compute in Hc. discriminate Hc.
Qed.

(** C3, amended. For the data [d0] of the mount and every sequence of
    host events after it (hand-downs of props carrying [d1 .. dn], with
    viewport resizes anywhere between them), the initialisation callback
    is called exactly once, with [d0]; the update callback is called
    once for [d0] and once per hand-down, in order and with the data the
    hand-down carries, whether or not that data is new, always on the
    node made at mount; a viewport resize calls no callback, and the
    component is never rendered again: the [ref] is handed a node
    exactly once. *)
Theorem drawing_follows_data C h p id css evs w :
  let n := fresh (dom (nodes w)) in
  ∃ w1 self1 w2 self2 es,
    mount C h p id css w = (w1, inr self1)
    ∧ run C evs self1 w1 = (w2, inr self2)
    ∧ log w2 = log w ++ es
    ∧ calls Init es = [(initFn C, Some n, data p, options C)]
    ∧ calls Render es =
        (λ d, (renderFn C, Some n, d, options C)) <$> (data p :: delivered evs)
    ∧ bounds es = [Some n].
Proof.
  intros n.
  destruct (mounted C h p id css w)
    as (w1 & self1 & Hm & Hn & _ & _ & Hq & _ & _ & Hlog1).
  destruct (run_spec C evs self1 w1 Hq)
    as (w2 & self2 & es & Hr & _ & _ & _ & _ & _ & _ & Hlog2
        & Hinit & Hrender & Hb).
  fold n in Hn, Hlog1. rewrite Hn in Hrender.
  destruct (mount_effects_calls C n (data p) css
              (parseTypenames ("resize." +:+ id))) as (Hi1 & Hr1 & Hb1).
  eexists w1, self1, w2, self2, (_ ++ es).
  split; [done|]. split; [done|].
  split; [by rewrite Hlog2, Hlog1, <- app_assoc|].
  rewrite !calls_app, bounds_app, Hi1, Hr1, Hb1, Hinit, Hrender, Hb.
  done.
Qed.

Lemma registered_mounted C h p id css w :
  id_chars id = true →
  ∀ w1 self1, mount C h p id css w = (w1, inr self1) →
  registered "resize" id (window_on w1) =
    ResizeOf (Some (fresh (dom (nodes w))))
    :: tail (registered "resize" id (window_on w)).
Proof.
  intros Hid w1 self1 Hm. rewrite mount_spec in Hm. injection Hm as <- _.
  cbn [window_on]. rewrite parseTypenames_resize by done. cbn.
  apply registered_onAdd.
Qed.

Lemma sized_attrs_lookup C h p id css :
  mounted_attrs C h p id css !! "viewBox" = Some (viewBox_of css)
  ∧ mounted_attrs C h p id css !! "preserveAspectRatio" = Some "xMinYMid"
  ∧ mounted_attrs C h p id css !! "width" = Some "100%"
  ∧ mounted_attrs C h p id css !! "height" = Some "100%"
  ∧ mounted_attrs C h p id css !! "id" = Some id.
Proof.
  unfold mounted_attrs, sized_attrs, viewBox_of, svg_attrs.
  repeat split;
    repeat (rewrite lookup_insert_ne by done);
    by rewrite lookup_insert_eq.
Qed.

(** C6. Mounting does, in this order: hand the node to the [ref],
    which then holds it; call the initialisation callback with the
    node, the current data and the options; call the update callback
    with the same arguments; size the node and register the resize
    handler on [window] under the id, where it then is.  For the rest of
    the life of the instance, whatever is delivered and however often
    the viewport is resized, the initialisation callback is not called
    again and the [ref] is not called again; the instance keeps its
    node until the unmount, which detaches it and calls the [ref] with
    [null]. *)
Theorem mount_order C h p id css evs w :
  id_chars id = true →
  let n := fresh (dom (nodes w)) in
  ∃ w1 self1 e1 w2 self2 es w3 self3,
    mount C h p id css w = (w1, inr self1)
    ∧ log w1 = log w ++
        [ Bound (Some n);
          Called Init (initFn C) (Some n) (data p) (options C);
          Called Render (renderFn C) (Some n) (data p) (options C);
          AttrSet n "viewBox" (viewBox_of css);
          AttrSet n "preserveAspectRatio" "xMinYMid";
          AttrSet n "width" "100%";
          AttrSet n "height" "100%";
          Listening "resize" id (ResizeOf (Some n)) ]
    ∧ this_node self1 = Some n
    ∧ nodes w !! n = None
    ∧ nodes w1 !! n = Some e1 ∧ attached e1 = true
    ∧ attrs e1 !! "viewBox" = Some (viewBox_of css)
    ∧ attrs e1 !! "preserveAspectRatio" = Some "xMinYMid"
    ∧ attrs e1 !! "width" = Some "100%"
    ∧ attrs e1 !! "height" = Some "100%"
    ∧ registered "resize" id (window_on w1) =
        ResizeOf (Some n) :: tail (registered "resize" id (window_on w))
    ∧ run C evs self1 w1 = (w2, inr self2)
    ∧ log w2 = log w1 ++ es
    ∧ calls Init es = []
    ∧ bounds es = []
    ∧ this_node self2 = Some n
    ∧ registered "resize" id (window_on w2) =
        registered "resize" id (window_on w1)
    ∧ unmount self2 w2 = (w3, inr self3)
    ∧ this_node self3 = None
    ∧ log w3 = log w2 ++ [Detached n; Bound None].
Proof.
  intros Hid n.
  destruct (mounted C h p id css w)
    as (w1 & self1 & Hm & Hn & _ & _ & Hq & Hns1 & _ & Hlog1).
  destruct (run_spec C evs self1 w1 Hq)
    as (w2 & self2 & es & Hr & Hn2 & _ & _ & _ & Hon2 & Hns2 & Hlog2
        & Hinit & _ & Hb).
  fold n in Hn, Hlog1, Hns1.
  rewrite parseTypenames_resize in Hlog1 by done.
  destruct (sized_attrs_lookup C h p id css) as (Hv & Hp & Hw & Hh & _).
  specialize (Hns2 n). rewrite Hns1, lookup_insert_eq in Hns2.
  destruct (nodes w2 !! n) as [e2|] eqn:He2; [|done].
  destruct Hns2 as [Ha2 _]. simpl in Ha2.
  eexists w1, self1, _, w2, self2, es, _, _.
  split; [done|]. split; [done|]. split; [done|].
  split; [apply not_elem_of_dom, is_fresh|].
  split; [rewrite Hns1; apply lookup_insert_eq|].
  cbn [attrs attached].
  split; [done|]. split; [done|]. split; [done|]. split; [done|].
  split; [done|].
  split; [by apply (registered_mounted C h p id css w Hid w1 self1)|].
  split; [done|]. split; [done|]. split; [done|]. split; [done|].
  split; [congruence|]. split; [by rewrite Hon2|].
  split; [apply (unmount_spec self2 n e2); congruence|].
  by cbn [log this_node ref].
Qed.

Lemma mount_order_witness :
  id_chars "abc" = true
  ∧ ∃ w1 self1 e1 w2 self2 es w3 self3,
      mount (Component (VRef 1%positive) (VRef 2%positive) 3%positive
               VUndefined)
        example_resolved (mkProps (VNum 1) None) "abc" ∅ (World ∅ [] [])
        = (w1, inr self1)
      ∧ log w1 = [] ++
          [ Bound (Some 1%positive);
            Called Init (VRef 1%positive) (Some 1%positive) (VNum 1)
              3%positive;
            Called Render (VRef 2%positive) (Some 1%positive) (VNum 1)
              3%positive;
            AttrSet 1%positive "viewBox" (viewBox_of ∅);
            AttrSet 1%positive "preserveAspectRatio" "xMinYMid";
            AttrSet 1%positive "width" "100%";
            AttrSet 1%positive "height" "100%";
            Listening "resize" "abc" (ResizeOf (Some 1%positive)) ]
      ∧ this_node self1 = Some 1%positive
      ∧ nodes w1 !! 1%positive = Some e1 ∧ attached e1 = true
      ∧ registered "resize" "abc" (window_on w1) = [ResizeOf (Some 1%positive)]
      ∧ run (Component (VRef 1%positive) (VRef 2%positive) 3%positive
               VUndefined)
          [Deliver (mkProps (VNum 2) None); ViewportResize] self1 w1
          = (w2, inr self2)
      ∧ log w2 = log w1 ++ es
      ∧ calls Init es = []
      ∧ bounds es = []
      ∧ unmount self2 w2 = (w3, inr self3)
      ∧ log w3 = log w2 ++ [Detached 1%positive; Bound None].
Proof.
  split; [reflexivity|].
  destruct (mount_order
              (Component (VRef 1%positive) (VRef 2%positive) 3%positive
                 VUndefined)
              example_resolved (mkProps (VNum 1) None) "abc" ∅
              [Deliver (mkProps (VNum 2) None); ViewportResize]
              (World ∅ [] []) eq_refl)
    as (w1 & self1 & e1 & w2 & self2 & es & w3 & self3 & Hm & Hl1 & Hn & _
        & He1 & Ha1 & _ & _ & _ & _ & Hreg & Hr & Hl2 & Hi & Hb & _ & _
        & Hu & _ & Hl3).
  exists w1, self1, e1, w2, self2, es, w3, self3.
  repeat (split; [assumption|]). exact Hl3.
Defined.

(** C7. At mount the sizer reads the computed width and height of
    the [svg], sets [viewBox] to [0 0 width height] and
    [preserveAspectRatio] to [xMinYMid], sets the displayed width and
    height to [100%], and registers on [window], for the event
    [resize] and under the name that is the id of the instance, a
    handler that sets width and height of that same node to [100%]
    again whenever it runs. *)
Theorem responsive_sizer C h p id css w :
  id_chars id = true →
  let n := fresh (dom (nodes w)) in
  ∃ w1 self e,
    mount C h p id css w = (w1, inr self)
    ∧ this_id self = id ∧ this_node self = Some n
    ∧ nodes w1 !! n = Some e
    ∧ computed e = css
    ∧ attrs e !! "viewBox" =
        Some ("0 0 "
              +:+ num_to_string (parseInt (default "" (css !! "width")))
              +:+ " "
              +:+ num_to_string (parseInt (default "" (css !! "height"))))
    ∧ attrs e !! "preserveAspectRatio" = Some "xMinYMid"
    ∧ attrs e !! "width" = Some "100%"
    ∧ attrs e !! "height" = Some "100%"
    ∧ registered "resize" id (window_on w1) =
        ResizeOf (Some n) :: tail (registered "resize" id (window_on w))
    ∧ ∀ l w' e',
        l_value l = ResizeOf (Some n) → nodes w' !! n = Some e' →
        ∃ w'' e'',
          run_handler l w' = (w'', inr ())
          ∧ nodes w'' !! n = Some e''
          ∧ attrs e'' !! "width" = Some "100%"
          ∧ attrs e'' !! "height" = Some "100%".
Proof.
  intros Hid n.
  destruct (mounted C h p id css w)
    as (w1 & self1 & Hm & Hn & Hi & _ & _ & Hns1 & Hon1 & _).
  fold n in Hn, Hns1, Hon1.
  rewrite parseTypenames_resize in Hon1 by done. cbn in Hon1.
  destruct (sized_attrs_lookup C h p id css) as (Hv & Hp & Hw & Hh & _).
  eexists w1, self1, _.
  split; [done|]. split; [done|]. split; [done|].
  split; [rewrite Hns1; apply lookup_insert_eq|].
  cbn [attrs computed].
  split; [done|]. split; [exact Hv|]. split; [done|].
  split; [done|]. split; [done|].
  split; [rewrite Hon1; apply registered_onAdd|].
  intros l w' e' Hl He'. rewrite run_handler_spec, Hl.
  eexists _, _. split; [done|]. cbn [nodes resized].
  split; [by rewrite lookup_alter_eq, He'|]. cbn [attrs].
  split; [by rewrite lookup_insert_ne, lookup_insert_eq|].
  by rewrite lookup_insert_eq.
Qed.

Lemma responsive_sizer_witness :
  id_chars "abc" = true
  ∧ ∃ w1 self e,
      mount (Component (VRef 1%positive) (VRef 2%positive) 3%positive
               VUndefined)
        example_resolved (mkProps (VNum 1) None) "abc"
        {[ "width" := "400px"; "height" := "500px" ]} (World ∅ [] [])
        = (w1, inr self)
      ∧ this_id self = "abc" ∧ this_node self = Some 1%positive
      ∧ nodes w1 !! 1%positive = Some e
      ∧ attrs e !! "viewBox" = Some "0 0 400 500"
      ∧ registered "resize" "abc" (window_on w1) =
          [ResizeOf (Some 1%positive)].
Proof.
  split; [reflexivity|].
  destruct (responsive_sizer
              (Component (VRef 1%positive) (VRef 2%positive) 3%positive
                 VUndefined)
              example_resolved (mkProps (VNum 1) None) "abc"
              {[ "width" := "400px"; "height" := "500px" ]}
              (World ∅ [] []) eq_refl)
    as (w1 & self & e & Hm & Hi & Hn & He & _ & Hv & _ & _ & _ & Hr & _).
  exists w1, self, e.
  split; [exact Hm|]. split; [exact Hi|]. split; [exact Hn|].
  split; [exact He|]. split; [exact Hv|exact Hr].
Defined.





(** C9. Two instances mounted one after the other, whose ids differ
    (and are in use by no other listener), are registered under two
    names: each name holds exactly the handler of its own instance,
    the two handlers act on two different nodes, and a viewport
    resize runs, under each name, that handler once and no other. *)
Theorem concurrent_instances C1 h1 p1 id1 css1 C2 h2 p2 id2 css2 w :
  id_chars id1 = true → id_chars id2 = true → id1 ≠ id2 →
  registered "resize" id1 (window_on w) = [] →
  registered "resize" id2 (window_on w) = [] →
  ∃ w1 self1 w2 self2 n1 n2 w3 es,
    mount C1 h1 p1 id1 css1 w = (w1, inr self1)
    ∧ mount C2 h2 p2 id2 css2 w1 = (w2, inr self2)
    ∧ this_node self1 = Some n1 ∧ this_node self2 = Some n2
    ∧ n1 ≠ n2
    ∧ registered "resize" id1 (window_on w2) = [ResizeOf (Some n1)]
    ∧ registered "resize" id2 (window_on w2) = [ResizeOf (Some n2)]
    ∧ dispatch "resize" w2 = (w3, inr ())
    ∧ log w3 = log w2 ++ es
    ∧ handled "resize" id1 es = [ResizeOf (Some n1)]
    ∧ handled "resize" id2 es = [ResizeOf (Some n2)].
Proof.
  intros Hid1 Hid2 Hne Hr1 Hr2.
  destruct (mounted C1 h1 p1 id1 css1 w)
    as (w1 & self1 & Hm1 & Hn1 & _ & _ & _ & Hns1 & Hon1 & _).
  destruct (mounted C2 h2 p2 id2 css2 w1)
    as (w2 & self2 & Hm2 & Hn2 & _ & _ & _ & Hns2 & Hon2 & _).
  rewrite parseTypenames_resize in Hon1 by done.
  rewrite parseTypenames_resize in Hon2 by done.
  cbn in Hon1, Hon2.
  set (n1 := fresh (dom (nodes w))) in *.
  set (n2 := fresh (dom (nodes w1))) in *.
  assert (registered "resize" id1 (window_on w2) = [ResizeOf (Some n1)])
    as Hreg1.
  { rewrite Hon2, registered_onAdd_other by (by intros [_ ?]).
    by rewrite Hon1, registered_onAdd, Hr1. }
  assert (registered "resize" id2 (window_on w2) = [ResizeOf (Some n2)])
    as Hreg2.
  { rewrite Hon2, registered_onAdd, Hon1.
    rewrite registered_onAdd_other by (intros [_ ?]; by apply Hne).
    by rewrite Hr2. }
  eexists w1, self1, w2, self2, n1, n2, _, _.
  split; [done|]. split; [done|]. split; [done|]. split; [done|].
  split.
  { intros Heq. pose proof (is_fresh (dom (nodes w1))) as Hf.
    fold n2 in Hf. apply Hf. rewrite <- Heq, Hns1.
    apply elem_of_dom. rewrite lookup_insert_eq. done. }
  split; [done|]. split; [done|].
  split; [apply dispatch_spec|]. cbn [log].
  split; [done|].
  by rewrite !dispatched_handled.
Qed.

Lemma concurrent_instances_witness :
  id_chars "abc" = true ∧ id_chars "xyz" = true ∧ "abc" ≠ "xyz"
  ∧ registered "resize" "abc" (window_on (World ∅ [] [])) = []
  ∧ registered "resize" "xyz" (window_on (World ∅ [] [])) = []
  ∧ ∃ w1 self1 w2 self2 n1 n2 w3 es,
      mount (Component (VRef 1%positive) (VRef 2%positive) 3%positive
               VUndefined)
        example_resolved (mkProps (VNum 1) None) "abc" ∅ (World ∅ [] [])
        = (w1, inr self1)
      ∧ mount (Component (VRef 1%positive) (VRef 2%positive) 3%positive
                 VUndefined)
          example_resolved (mkProps (VNum 2) None) "xyz" ∅ w1
          = (w2, inr self2)
      ∧ this_node self1 = Some n1 ∧ this_node self2 = Some n2
      ∧ n1 ≠ n2
      ∧ registered "resize" "abc" (window_on w2) = [ResizeOf (Some n1)]
      ∧ registered "resize" "xyz" (window_on w2) = [ResizeOf (Some n2)]
      ∧ dispatch "resize" w2 = (w3, inr ())
      ∧ log w3 = log w2 ++ es
      ∧ handled "resize" "abc" es = [ResizeOf (Some n1)]
      ∧ handled "resize" "xyz" es = [ResizeOf (Some n2)].
Proof.
  assert ("abc" ≠ "xyz") as Hne by (intros [=]).
  split; [reflexivity|]. split; [reflexivity|]. split; [exact Hne|].
  split; [reflexivity|]. split; [reflexivity|].
  exact (concurrent_instances
           (Component (VRef 1%positive) (VRef 2%positive) 3%positive
              VUndefined)
           example_resolved (mkProps (VNum 1) None) "abc" ∅
           (Component (VRef 1%positive) (VRef 2%positive) 3%positive
              VUndefined)
           example_resolved (mkProps (VNum 2) None) "xyz" ∅
           (World ∅ [] []) eq_refl eq_refl Hne eq_refl eq_refl).
Defined.

(** Unmounting detaches the node and leaves the listeners on
    [window] as they are: the resize handler of the instance is still
    registered under its id, and still runs at the next resize. *)
Lemma resize_handler_outlives_unmount C h p id css evs w :
  id_chars id = true →
  let n := fresh (dom (nodes w)) in
  ∃ w1 self1 w2 self2 w3 self3 e w4 es,
    mount C h p id css w = (w1, inr self1)
    ∧ run C evs self1 w1 = (w2, inr self2)
    ∧ unmount self2 w2 = (w3, inr self3)
    ∧ nodes w3 !! n = Some e ∧ attached e = false
    ∧ head (registered "resize" id (window_on w3)) = Some (ResizeOf (Some n))
    ∧ dispatch "resize" w3 = (w4, inr ())
    ∧ log w4 = log w3 ++ es
    ∧ head (handled "resize" id es) = Some (ResizeOf (Some n)).
Proof.
  intros Hid n.
  destruct (mounted C h p id css w)
    as (w1 & self1 & Hm & Hn & _ & _ & Hq & Hns1 & Hon1 & _).
  destruct (run_spec C evs self1 w1 Hq)
    as (w2 & self2 & es & Hr & Hn2 & _ & _ & _ & Hon2 & Hns2 & _).
  fold n in Hn, Hns1, Hon1.
  rewrite parseTypenames_resize in Hon1 by done. cbn in Hon1.
  specialize (Hns2 n). rewrite Hns1, lookup_insert_eq in Hns2.
  destruct (nodes w2 !! n) as [e2|] eqn:He2; [|done].
  destruct Hns2 as [Ha2 _]. simpl in Ha2.
  assert (head (registered "resize" id (window_on w2))
          = Some (ResizeOf (Some n))) as Hreg.
  { by rewrite Hon2, Hon1, registered_onAdd. }
  eexists w1, self1, w2, self2, _, _, _, _, _.
  split; [done|]. split; [done|].
  split; [apply (unmount_spec self2 n e2); congruence|].
  cbn [nodes window_on log].
  split; [apply lookup_insert_eq|]. split; [done|]. split; [done|].
  split; [apply dispatch_spec|]. cbn [nodes window_on log].
  split; [done|]. by rewrite dispatched_handled.
Qed.

(** C1, on the code: mount an instance with id [abc] in an empty
    document and unmount it.  The node is detached, but the resize
    handler is still the one registered under [resize.abc], and the
    next viewport resize runs it. *)
Theorem unmount_keeps_resize_handler :
  ∃ w1 self1 w2 self2 e w3 es,
    mount (Component (VRef 1%positive) (VRef 2%positive) 3%positive
             VUndefined)
      example_resolved (mkProps (VNum 1) None) "abc" ∅ (World ∅ [] [])
      = (w1, inr self1)
    ∧ unmount self1 w1 = (w2, inr self2)
    ∧ nodes w2 !! 1%positive = Some e ∧ attached e = false
    ∧ registered "resize" "abc" (window_on w2) = [ResizeOf (Some 1%positive)]
    ∧ dispatch "resize" w2 = (w3, inr ())
    ∧ log w3 = log w2 ++ es
    ∧ handled "resize" "abc" es = [ResizeOf (Some 1%positive)].
Proof.
  eexists _, _, _, _, _, _, _.
  split; [vm_compute; reflexivity|].
  split; [vm_compute; reflexivity|].
  split; [vm_compute; reflexivity|].
  split; [reflexivity|].
  split; [vm_compute; reflexivity|].
  split; [vm_compute; reflexivity|].
  split; [vm_compute; reflexivity|].
  vm_compute; reflexivity.
Qed.

End lifecycle_claims.

(** ** The resolved options and the instances *)

Section options_claims.
Implicit Types (h : heap) (l : loc) (f g : val).


End options_claims.


(** ** More on the options resolver *)

Section resolver_facts.
Implicit Types (h : heap) (l t m : loc) (k : string) (f g : val).

Lemma mergeValue_num_id n k l h :
  get h l k ≠ VUndefined ∨ h !! l = None → mergeValue (LNum n) k l h = h.
Proof.
  intros [Hd|Hn]; simpl.
  - by destruct (get h l k).
  - destruct (get h l k); try done.
    unfold set_prop. apply alter_id. intros o Ho. congruence.
Qed.

Lemma lookup_set_prop_ne h l k v l' :
  l' ≠ l → set_prop h l k v !! l' = h !! l'.
Proof. intros Hne. unfold set_prop. by rewrite lookup_alter_ne. Qed.

Lemma lookup_mergeValue_num_ne n k l h l' :
  l' ≠ l → mergeValue (LNum n) k l h !! l' = h !! l'.
Proof.
  intros Hne. simpl. destruct (get h l k); try done.
  by apply lookup_set_prop_ne.
Qed.

Lemma callable_kept_refl h : callable_kept h h.
Proof. intros l o Ho. by exists o. Qed.

Lemma callable_kept_trans h1 h2 h3 :
  callable_kept h1 h2 → callable_kept h2 h3 → callable_kept h1 h3.
Proof.
  intros H12 H23 l o Ho.
  destruct (H12 l o Ho) as (o2 & Ho2 & Hc2).
  destruct (H23 l o2 Ho2) as (o3 & Ho3 & Hc3).
  exists o3. split; [done|congruence].
Qed.

Lemma callable_kept_set_prop h l k v : callable_kept h (set_prop h l k v).
Proof.
  intros l' o Ho. unfold set_prop. rewrite lookup_alter.
  case_decide; [subst|by exists o]. rewrite Ho. by eexists.
Qed.

Lemma callable_kept_alloc h : callable_kept h (alloc h).2.
Proof.
  intros l o Ho. exists o. split; [|done]. simpl.
  rewrite lookup_insert_ne; [done|]. intros Heq.
  pose proof (alloc_fresh h) as Hf. simpl in Hf. congruence.
Qed.

Lemma mergeValue_callable sv : ∀ k l h, callable_kept h (mergeValue sv k l h).
Proof.
  induction sv as [n|fs IH] using lit_members_ind; intros k l h.
  - simpl. destruct (get h l k); try apply callable_kept_refl.
    apply callable_kept_set_prop.
  - rewrite mergeValue_obj.
    pose proof (baseMerge_Forall callable_kept fs callable_kept_refl
                  callable_kept_trans IH) as Hfs.
    destruct (get h l k) eqn:Hg; try apply callable_kept_refl.
    + destruct (alloc h) as [t h1] eqn:Ha.
      eapply callable_kept_trans; [|apply callable_kept_set_prop].
      eapply callable_kept_trans; [|apply Hfs].
      replace h1 with (alloc h).2 by (by rewrite Ha).
      apply callable_kept_alloc.
    + apply Hfs.
Qed.

Lemma baseMerge_callable fs l h : callable_kept h (baseMerge fs l h).
Proof.
  apply baseMerge_Forall;
    [apply callable_kept_refl|apply callable_kept_trans|].
  apply Forall_forall. intros kv _ k l' h'. apply mergeValue_callable.
Qed.

Lemma typeof_function_kept h h' f :
  callable_kept h h' → typeof h f = "function" → typeof h' f = "function".
Proof.
  intros Hk. destruct f as [| | | | |l]; simpl; try done.
  destruct (h !! l) as [o|] eqn:Ho; [|done].
  destruct (Hk l o Ho) as (o' & -> & ->). done.
Qed.

Lemma defaults_keys : defaults.*1 = ["width"; "height"; "margin"].
Proof. reflexivity. Qed.

Lemma default_margin_keys :
  default_margin.*1 = ["top"; "right"; "bottom"; "left"].
Proof. reflexivity. Qed.

Lemma baseMerge_defaults_eq l h :
  baseMerge defaults l h =
    mergeValue (LObj default_margin) "margin" l
      (mergeValue (LNum 500) "height" l (mergeValue (LNum 900) "width" l h)).
Proof. reflexivity. Qed.

Lemma baseMerge_default_margin_eq m h :
  baseMerge default_margin m h =
    mergeValue (LNum 150) "left" m
      (mergeValue (LNum 150) "bottom" m
         (mergeValue (LNum 50) "right" m (mergeValue (LNum 120) "top" m h))).
Proof. reflexivity. Qed.

Lemma baseMerge_default_margin_is_Some m h l :
  is_Some (baseMerge default_margin m h !! l) ↔ is_Some (h !! l).
Proof.
  rewrite baseMerge_default_margin_eq. by rewrite !mergeValue_num_is_Some.
Qed.

(** Where the resolved [margin] is an object, its four sides have a
    value. *)
Lemma resolved_margin h l m k :
  is_Some (h !! l) →
  get (baseMerge defaults l h) l "margin" = VRef m →
  is_Some (baseMerge defaults l h !! m) →
  k ∈ default_margin.*1 →
  get (baseMerge defaults l h) m k ≠ VUndefined.
Proof.
  intros Hl. rewrite baseMerge_defaults_eq, mergeValue_obj.
  set (h2 := mergeValue (LNum 500) "height" l
               (mergeValue (LNum 900) "width" l h)).
  assert (is_Some (h2 !! l)) as Hl2.
  { unfold h2. by rewrite !mergeValue_num_is_Some. }
  destruct (get h2 l "margin") as [| | | | |m0] eqn:Hg.
  - destruct (alloc h2) as [t h3] eqn:Ha.
    assert (h3 = <[t := Obj false ∅]> h2) as Hh3.
    { unfold alloc in Ha. by injection Ha as <- <-. }
    assert (is_Some (baseMerge default_margin t h3 !! l)) as Hl3.
    { apply baseMerge_objects. rewrite Hh3.
      destruct (decide (t = l)) as [->|Hne];
        [by rewrite lookup_insert_eq|by rewrite lookup_insert_ne]. }
    rewrite get_set_prop_same by done. intros [= <-] _ Hk.
    rewrite get_set_prop_other.
    + apply baseMerge_defined; [done|]. by rewrite Hh3, lookup_insert_eq.
    + intros [_ ->]. unfold default_margin in Hk. simpl in Hk.
      repeat (apply elem_of_cons in Hk as [[=]|Hk]).
      by apply elem_of_nil in Hk.
  - rewrite Hg. done.
  - rewrite Hg. done.
  - rewrite Hg. done.
  - rewrite Hg. done.
  - rewrite (baseMerge_kept default_margin m0 h2 l "margin") by (by rewrite Hg).
    rewrite Hg. intros [= <-] Hm Hk.
    apply baseMerge_defined; [done|].
    by apply baseMerge_default_margin_is_Some in Hm.
Qed.

(** Resolving options that are already resolved changes nothing. *)
Lemma baseMerge_defaults_again h l :
  is_Some (h !! l) →
  baseMerge defaults l (baseMerge defaults l h) = baseMerge defaults l h.
Proof.
  intros Hl. set (h' := baseMerge defaults l h).
  assert (is_Some (h' !! l)) as Hl' by (by apply baseMerge_objects).
  assert (∀ k, k ∈ defaults.*1 → get h' l k ≠ VUndefined) as Hdef.
  { intros k Hk. by apply baseMerge_defined. }
  rewrite baseMerge_defaults_eq.
  rewrite (mergeValue_num_id 900)
    by (left; apply Hdef; rewrite defaults_keys; repeat constructor).
  rewrite (mergeValue_num_id 500)
    by (left; apply Hdef; rewrite defaults_keys; repeat constructor).
  rewrite mergeValue_obj.
  destruct (get h' l "margin") as [| | | | |m] eqn:Hg; try done.
  - exfalso. apply (Hdef "margin"); [|done].
    rewrite defaults_keys. repeat constructor.
  - assert (∀ k, k ∈ default_margin.*1 →
              get h' m k ≠ VUndefined ∨ h' !! m = None) as Hm.
    { intros k Hk. destruct (h' !! m) as [o|] eqn:Ho; [left|by right].
      apply (resolved_margin h l m k); try done; fold h'; by rewrite Ho. }
    rewrite baseMerge_default_margin_eq.
    rewrite (mergeValue_num_id 120)
      by (apply Hm; rewrite default_margin_keys; repeat constructor).
    rewrite (mergeValue_num_id 50)
      by (apply Hm; rewrite default_margin_keys; repeat constructor).
    rewrite (mergeValue_num_id 150 "bottom")
      by (apply Hm; rewrite default_margin_keys; repeat constructor).
    rewrite (mergeValue_num_id 150 "left")
      by (apply Hm; rewrite default_margin_keys; repeat constructor).
    done.
Qed.

(** The merge of the defaults writes the keys of the defaults, no
    other. *)
Lemma baseMerge_defaults_other_keys h l l' k :
  k ∉ default_keys →
  get (baseMerge defaults l h) l' k = get h l' k.
Proof.
  intros Hk.
  assert (k ≠ "width" ∧ k ≠ "height" ∧ k ≠ "margin" ∧ k ≠ "top"
          ∧ k ≠ "right" ∧ k ≠ "bottom" ∧ k ≠ "left")
    as (Hw & Hh & Hm & Ht & Hr & Hb & Hle).
  { unfold default_keys in Hk.
    repeat split; intros ->; apply Hk; repeat constructor. }
  rewrite baseMerge_defaults_eq, mergeValue_obj.
  set (h2 := mergeValue (LNum 500) "height" l
               (mergeValue (LNum 900) "width" l h)).
  assert (∀ l0, get h2 l0 k = get h l0 k) as Hh2.
  { intros l0. unfold h2.
    by rewrite !get_mergeValue_num_ne by (by intros [_ ?]). }
  destruct (get h2 l "margin") as [| | | | |m]; try apply Hh2.
  - destruct (alloc h2) as [t h3] eqn:Ha.
    rewrite get_set_prop_other by (by intros [_ ?]).
    rewrite baseMerge_default_margin_eq.
    rewrite !get_mergeValue_num_ne by (by intros [_ ?]).
    replace h3 with (alloc h2).2 by (by rewrite Ha).
    by rewrite get_alloc.
  - rewrite baseMerge_default_margin_eq.
    by rewrite !get_mergeValue_num_ne by (by intros [_ ?]).
Qed.

(** X1. A second factory call on options that one factory call has
    resolved leaves the heap as it is, whatever the two callbacks: one
    options object can be handed to any number of factories. *)
Theorem resolution_idempotent h f g l f' g' :
  typeof h f = "function" → typeof h g = "function" →
  typeof h f' = "function" → typeof h g' = "function" →
  is_Some (h !! l) →
  ∃ h' C C',
    d3Conduit f g (OObject l) h = (h', inr C)
    ∧ d3Conduit f' g' (OObject l) h' = (h', inr C')
    ∧ options C' = options C
    ∧ displayName C' = displayName C.
Proof.
  intros Hf Hg Hf' Hg' Hl.
  eexists _, _, _. split; [by apply d3Conduit_object|].
  rewrite d3Conduit_object
    by (eapply typeof_function_kept; [apply baseMerge_callable|done]).
  by rewrite baseMerge_defaults_again.
Qed.

Lemma resolution_idempotent_witness :
  typeof example_heap (VRef 1%positive) = "function"
  ∧ typeof example_heap (VRef 2%positive) = "function"
  ∧ is_Some (example_heap !! 3%positive)
  ∧ ∃ h' C C',
      d3Conduit (VRef 1%positive) (VRef 2%positive) (OObject 3%positive)
        example_heap = (h', inr C)
      ∧ d3Conduit (VRef 2%positive) (VRef 1%positive) (OObject 3%positive)
          h' = (h', inr C')
      ∧ options C' = options C
      ∧ displayName C' = displayName C.
Proof.
  assert (typeof example_heap (VRef 1%positive) = "function") as Hf
    by reflexivity.
  assert (typeof example_heap (VRef 2%positive) = "function") as Hg
    by reflexivity.
  assert (is_Some (example_heap !! 3%positive)) as Hl
    by (vm_compute; eauto).
  split; [exact Hf|]. split; [exact Hg|]. split; [exact Hl|].
  exact (resolution_idempotent example_heap (VRef 1%positive)
           (VRef 2%positive) 3%positive (VRef 2%positive) (VRef 1%positive)
           Hf Hg Hg Hf Hl).
Defined.

(** X2. The resolver writes only to the keys of the defaults: every
    other property of every object, such as an extension field of the
    caller, is as it was, and the [displayName] of the class is the one
    of the caller's options ([undefined] when the caller gave none). *)
Theorem resolution_writes_default_keys_only h f g l :
  typeof h f = "function" → typeof h g = "function" → is_Some (h !! l) →
  ∃ h' C,
    d3Conduit f g (OObject l) h = (h', inr C)
    ∧ (∀ l' k, k ∉ default_keys → get h' l' k = get h l' k)
    ∧ displayName C = get h l "displayName".
Proof.
  intros Hf Hg Hl.
  eexists _, _. split; [by apply d3Conduit_object|].
  split.
  - intros l' k Hk. by apply baseMerge_defaults_other_keys.
  - cbn [displayName]. apply baseMerge_defaults_other_keys.
    unfold default_keys. intros Hin.
    repeat (apply elem_of_cons in Hin as [[=]|Hin]).
    by apply elem_of_nil in Hin.
Qed.

Lemma resolution_writes_default_keys_only_witness :
  typeof example_heap (VRef 1%positive) = "function"
  ∧ typeof example_heap (VRef 2%positive) = "function"
  ∧ is_Some (example_heap !! 3%positive)
  ∧ ∃ h' C,
      d3Conduit (VRef 1%positive) (VRef 2%positive) (OObject 3%positive)
        example_heap = (h', inr C)
      ∧ (∀ l' k, k ∉ default_keys → get h' l' k = get example_heap l' k)
      ∧ displayName C = get example_heap 3%positive "displayName".
Proof.
  assert (typeof example_heap (VRef 1%positive) = "function") as Hf
    by reflexivity.
  assert (typeof example_heap (VRef 2%positive) = "function") as Hg
    by reflexivity.
  assert (is_Some (example_heap !! 3%positive)) as Hl
    by (vm_compute; eauto).
  split; [exact Hf|]. split; [exact Hg|]. split; [exact Hl|].
  exact (resolution_writes_default_keys_only example_heap (VRef 1%positive)
           (VRef 2%positive) 3%positive Hf Hg Hl).
Defined.

(** X3. With two functions and the options argument [undefined] or
    [null], the factory throws the [TypeError] of [Object.assign], after
    the callbacks have passed their checks; every object that was in the
    heap is as it was. *)
Theorem missing_options_type_error h f g a :
  typeof h f = "function" → typeof h g = "function" →
  a = OUndefined ∨ a = ONull →
  ∃ h',
    d3Conduit f g a h =
      (h', inl (TypeError "Cannot convert undefined or null to object"))
    ∧ ∀ l, is_Some (h !! l) → h' !! l = h !! l.
Proof.
  intros Hf Hg Ha.
  assert (∃ h', d3Conduit f g a h =
            (h', inl (TypeError "Cannot convert undefined or null to object"))
          ∧ h' = baseMerge defaults (alloc h).1 (alloc h).2)
    as (h' & Heq & ->).
  { unfold d3Conduit.
    rewrite decide_False by (by intros ?).
    rewrite decide_False by (by intros ?).
    destruct Ha as [-> | ->]; by eexists. }
  eexists. split; [exact Heq|]. intros l Hl.
  pose proof (alloc_fresh h) as Hfresh.
  set (t := (alloc h).1) in *. set (h0 := (alloc h).2).
  assert (l ≠ t) as Hlt.
  { intros ->. rewrite Hfresh in Hl. by destruct Hl. }
  assert (h0 !! l = h !! l) as Hh0.
  { unfold h0. simpl. rewrite lookup_insert_ne; [done|]. by intros Heq'. }
  rewrite baseMerge_defaults_eq, mergeValue_obj.
  set (h2 := mergeValue (LNum 500) "height" t
               (mergeValue (LNum 900) "width" t h0)).
  assert (h2 !! l = h !! l) as Hh2.
  { unfold h2. by rewrite !lookup_mergeValue_num_ne. }
  destruct (get h2 t "margin") as [| | | | |m] eqn:Hmar; try exact Hh2.
  - destruct (alloc h2) as [t2 h3] eqn:Ha2.
    assert (h2 !! t2 = None) as Hf2.
    { replace t2 with (alloc h2).1 by (by rewrite Ha2). apply alloc_fresh. }
    assert (h3 = <[t2 := Obj false ∅]> h2) as Hh3.
    { unfold alloc in Ha2. by injection Ha2 as <- <-. }
    assert (l ≠ t2) as Hlt2.
    { intros ->. rewrite Hf2 in Hh2. rewrite <- Hh2 in Hl. by destruct Hl. }
    rewrite lookup_set_prop_ne by done.
    rewrite baseMerge_default_margin_eq.
    rewrite !lookup_mergeValue_num_ne by done.
    by rewrite Hh3, lookup_insert_ne.
  - exfalso. revert Hmar. unfold h2.
    rewrite !get_mergeValue_num_ne by (by intros [_ ?]).
    unfold get, h0. simpl. fold t. rewrite lookup_insert_eq. done.
Qed.

Lemma missing_options_type_error_witness :
  typeof example_heap (VRef 1%positive) = "function"
  ∧ typeof example_heap (VRef 2%positive) = "function"
  ∧ (OUndefined = OUndefined ∨ OUndefined = ONull)
  ∧ ∃ h',
      d3Conduit (VRef 1%positive) (VRef 2%positive) OUndefined example_heap =
        (h', inl (TypeError "Cannot convert undefined or null to object"))
      ∧ ∀ l, is_Some (example_heap !! l) → h' !! l = example_heap !! l.
Proof.
  split; [reflexivity|]. split; [reflexivity|].
  split; [left; reflexivity|].
  exact (missing_options_type_error example_heap (VRef 1%positive)
           (VRef 2%positive) OUndefined eq_refl eq_refl (or_introl eq_refl)).
Defined.

End resolver_facts.

(** ** More on the lifecycle *)

Section lifecycle_more.
Implicit Types (C : component) (h : heap) (p : Props) (id : string)
  (css : gmap string string) (w : world) (evs : list host_event)
  (self : instance) (n : node).

Lemma resolved_width h l :
  is_Some (h !! l) →
  get (baseMerge defaults l h) l "width" =
    if decide (get h l "width" = VUndefined) then VNum 900
    else get h l "width".
Proof.
  intros Hl. case_decide as Hu; [|by apply baseMerge_kept].
  rewrite baseMerge_defaults_eq.
  assert (get (mergeValue (LNum 900) "width" l h) l "width" = VNum 900) as Hw
    by (by apply get_mergeValue_num_eq).
  rewrite mergeValue_kept;
    rewrite get_mergeValue_num_ne by (by intros [_ ?]); by rewrite Hw.
Qed.

Lemma resolved_height h l :
  is_Some (h !! l) →
  get (baseMerge defaults l h) l "height" =
    if decide (get h l "height" = VUndefined) then VNum 500
    else get h l "height".
Proof.
  intros Hl. case_decide as Hu; [|by apply baseMerge_kept].
  rewrite baseMerge_defaults_eq.
  assert (get (mergeValue (LNum 500) "height" l
                 (mergeValue (LNum 900) "width" l h)) l "height" = VNum 500)
    as Hh.
  { apply get_mergeValue_num_eq.
    - by apply mergeValue_num_is_Some.
    - by rewrite get_mergeValue_num_ne by (by intros [_ ?]). }
  rewrite mergeValue_kept; by rewrite Hh.
Qed.

(** X4. What an instance renders: an [svg] carrying the id of the
    instance, the resolved width and height (the caller's where the
    caller gave one, 900 and 500 otherwise), and the class name of the
    props: [d3Conduit] when the props give none, no class at all when
    they give the empty string. *)
Theorem rendered_svg h f g l p id :
  typeof h f = "function" → typeof h g = "function" → is_Some (h !! l) →
  ∃ h' C,
    d3Conduit f g (OObject l) h = (h', inr C)
    ∧ svg_id (render (constructor C h' (defaultProps p) id)) = id
    ∧ svg_width (render (constructor C h' (defaultProps p) id)) =
        (if decide (get h l "width" = VUndefined) then VNum 900
         else get h l "width")
    ∧ svg_height (render (constructor C h' (defaultProps p) id)) =
        (if decide (get h l "height" = VUndefined) then VNum 500
         else get h l "height")
    ∧ svg_className (render (constructor C h' (defaultProps p) id)) =
        match className p with
        | None => Some "d3Conduit"
        | Some "" => None
        | Some c => Some c
        end.
Proof.
  intros Hf Hg Hl.
  eexists _, _. split; [by apply d3Conduit_object|].
  cbn [render constructor svg_id svg_width svg_height svg_className this_id
       this_width this_height this_props options defaultProps className].
  split; [done|].
  split; [by apply resolved_width|].
  split; [by apply resolved_height|].
  by destruct (className p) as [[|a c]|].
Qed.

Lemma rendered_svg_witness :
  typeof example_heap (VRef 1%positive) = "function"
  ∧ typeof example_heap (VRef 2%positive) = "function"
  ∧ is_Some (example_heap !! 3%positive)
  ∧ ∃ h' C,
      d3Conduit (VRef 1%positive) (VRef 2%positive) (OObject 3%positive)
        example_heap = (h', inr C)
      ∧ svg_id (render (constructor C h' (defaultProps (mkProps (VNum 1) None))
                          "abc")) = "abc"
      ∧ svg_width (render (constructor C h'
                             (defaultProps (mkProps (VNum 1) None)) "abc"))
          = VNum 400
      ∧ svg_height (render (constructor C h'
                              (defaultProps (mkProps (VNum 1) None)) "abc"))
          = VNum 500
      ∧ svg_className (render (constructor C h'
                                 (defaultProps (mkProps (VNum 1) None)) "abc"))
          = Some "d3Conduit".
Proof.
  split; [reflexivity|]. split; [reflexivity|].
  assert (is_Some (example_heap !! 3%positive)) as Hl
    by (vm_compute; eauto).
  split; [exact Hl|].
  exact (rendered_svg example_heap (VRef 1%positive) (VRef 2%positive)
           3%positive (mkProps (VNum 1) None) "abc" eq_refl eq_refl Hl).
Defined.

(** A node whose width and height are [100%] is left as it is by
    every handler. *)
Lemma resized_fixed v (ns : gmap node element) n e :
  ns !! n = Some e →
  attrs e !! "width" = Some "100%" → attrs e !! "height" = Some "100%" →
  resized v ns !! n = Some e.
Proof.
  intros He Hw Hh. destruct v as [[m|]]; [|done]. simpl.
  rewrite lookup_alter. case_decide; [subst m|done].
  rewrite He. simpl. f_equal. destruct e as [a c b]; simpl in *.
  f_equal. rewrite (insert_id a "width") by done. by apply insert_id.
Qed.

Lemma dispatched_fixed ls (ns : gmap node element) n e :
  ns !! n = Some e →
  attrs e !! "width" = Some "100%" → attrs e !! "height" = Some "100%" →
  foldl (λ ns l, resized (l_value l) ns) ns ls !! n = Some e.
Proof.
  revert ns. induction ls as [|l ls IH]; intros ns He Hw Hh; simpl; [done|].
  apply IH; [|done..]. by apply resized_fixed.
Qed.

(** Deliveries and resizes leave such a node as it is, and leave in the
    state the data delivered last. *)
Lemma run_fixed C evs : ∀ self w w' self' n e,
  queued self = [] →
  run C evs self w = (w', inr self') →
  nodes w !! n = Some e →
  attrs e !! "width" = Some "100%" → attrs e !! "height" = Some "100%" →
  nodes w' !! n = Some e
  ∧ this_state_data self' =
      default (this_state_data self) (last (delivered evs)).
Proof.
  induction evs as [|ev evs IH]; intros self w w' self' n e Hq Hrun He Hw Hh.
  - cbn in Hrun. by injection Hrun as <- <-.
  - cbn [run] in Hrun. destruct ev as [next|].
    + cbn [host_step] in Hrun.
      erewrite bind_inr in Hrun by (by apply receiveProps_spec).
      eapply IH in Hrun as [Hn Hs]; [|done|exact He|done..].
      split; [done|]. rewrite Hs. cbn [this_state_data delivered omap list_omap].
      fold (delivered evs). rewrite last_cons.
      by destruct (last (delivered evs)).
    + cbn [host_step] in Hrun.
      erewrite bind_inr in Hrun;
        [|erewrite bind_inr by apply dispatch_spec; reflexivity].
      eapply IH in Hrun as [Hn Hs]; [|done| |done..].
      * by split.
      * cbn [nodes]. by apply dispatched_fixed.
Qed.

(** X5. Viewport resizes leave the attributes of a mounted [svg] as
    the mount left them: the handler writes the width and height it
    already has, and [viewBox] stays the rectangle computed from the
    size at mount, however often the viewport is resized; the node
    stays attached. *)
Theorem sized_attributes_stable C h p id css (k : nat) w :
  let n := fresh (dom (nodes w)) in
  ∃ w1 self1 e1 w2 self2 e2,
    mount C h p id css w = (w1, inr self1)
    ∧ nodes w1 !! n = Some e1
    ∧ run C (replicate k ViewportResize) self1 w1 = (w2, inr self2)
    ∧ nodes w2 !! n = Some e2
    ∧ attrs e2 = attrs e1
    ∧ attached e2 = true
    ∧ attrs e2 !! "viewBox" = Some (viewBox_of css)
    ∧ attrs e2 !! "width" = Some "100%"
    ∧ attrs e2 !! "height" = Some "100%".
Proof.
  intros n.
  destruct (mounted C h p id css w)
    as (w1 & self1 & Hm & _ & _ & _ & Hq & Hns1 & _ & _).
  destruct (run_spec C (replicate k ViewportResize) self1 w1 Hq)
    as (w2 & self2 & es & Hr & _).
  fold n in Hns1.
  destruct (sized_attrs_lookup C h p id css) as (Hv & _ & Hw & Hh & _).
  assert (nodes w1 !! n = Some (Element (mounted_attrs C h p id css) css true))
    as He1 by (rewrite Hns1; apply lookup_insert_eq).
  eexists w1, self1, _, w2, self2, _.
  split; [done|]. split; [exact He1|]. split; [done|].
  split;
    [exact (proj1 (run_fixed C _ self1 w1 w2 self2 n _ Hq Hr He1 Hw Hh))|].
  done.
Qed.

(** X6. The state of an instance holds the data of the props it was
    made with until a delivery, and from then on the data delivered
    last. *)
Theorem state_follows_deliveries C h p id css evs w :
  ∃ w1 self1 w2 self2,
    mount C h p id css w = (w1, inr self1)
    ∧ this_state_data self1 = data p
    ∧ run C evs self1 w1 = (w2, inr self2)
    ∧ this_state_data self2 = default (data p) (last (delivered evs)).
Proof.
  destruct (mounted C h p id css w)
    as (w1 & self1 & Hm & _ & _ & _ & Hq & Hns1 & _ & _).
  destruct (run_spec C evs self1 w1 Hq) as (w2 & self2 & es & Hr & _).
  destruct (sized_attrs_lookup C h p id css) as (_ & _ & Hw & Hh & _).
  assert (this_state_data self1 = data p) as Hd.
  { rewrite mount_spec in Hm. by injection Hm as _ <-. }
  exists w1, self1, w2, self2. split; [done|]. split; [done|]. split; [done|].
  rewrite <- Hd.
  refine (proj2 (run_fixed C evs self1 w1 w2 self2 (fresh (dom (nodes w)))
                   (Element (mounted_attrs C h p id css) css true)
                   Hq Hr _ Hw Hh)).
  rewrite Hns1. apply lookup_insert_eq.
Qed.

(** X7. Two instances that get the same id share one type name: the
    registration of the second replaces the handler of the first, and a
    viewport resize then runs the handler of the second only. *)
Theorem same_id_replaces_handler C1 h1 p1 css1 C2 h2 p2 css2 id w :
  id_chars id = true →
  registered "resize" id (window_on w) = [] →
  ∃ w1 self1 w2 self2 n1 n2 w3 es,
    mount C1 h1 p1 id css1 w = (w1, inr self1)
    ∧ mount C2 h2 p2 id css2 w1 = (w2, inr self2)
    ∧ this_node self1 = Some n1 ∧ this_node self2 = Some n2
    ∧ n1 ≠ n2
    ∧ registered "resize" id (window_on w1) = [ResizeOf (Some n1)]
    ∧ registered "resize" id (window_on w2) = [ResizeOf (Some n2)]
    ∧ dispatch "resize" w2 = (w3, inr ())
    ∧ log w3 = log w2 ++ es
    ∧ handled "resize" id es = [ResizeOf (Some n2)].
Proof.
  intros Hid Hr.
  destruct (mounted C1 h1 p1 id css1 w)
    as (w1 & self1 & Hm1 & Hn1 & _ & _ & _ & Hns1 & Hon1 & _).
  destruct (mounted C2 h2 p2 id css2 w1)
    as (w2 & self2 & Hm2 & Hn2 & _ & _ & _ & Hns2 & Hon2 & _).
  rewrite parseTypenames_resize in Hon1 by done.
  rewrite parseTypenames_resize in Hon2 by done.
  cbn in Hon1, Hon2.
  set (n1 := fresh (dom (nodes w))) in *.
  set (n2 := fresh (dom (nodes w1))) in *.
  assert (registered "resize" id (window_on w1) = [ResizeOf (Some n1)])
    as Hreg1 by (by rewrite Hon1, registered_onAdd, Hr).
  assert (registered "resize" id (window_on w2) = [ResizeOf (Some n2)])
    as Hreg2 by (by rewrite Hon2, registered_onAdd, Hreg1).
  eexists w1, self1, w2, self2, n1, n2, _, _.
  split; [done|]. split; [done|]. split; [done|]. split; [done|].
  split.
  { intros Heq. pose proof (is_fresh (dom (nodes w1))) as Hf.
    fold n2 in Hf. apply Hf. rewrite <- Heq, Hns1.
    apply elem_of_dom. rewrite lookup_insert_eq. done. }
  split; [done|]. split; [done|].
  split; [apply dispatch_spec|]. cbn [log].
  split; [done|]. by rewrite dispatched_handled.
Qed.

Lemma same_id_replaces_handler_witness :
  id_chars "abc" = true
  ∧ registered "resize" "abc" (window_on (World ∅ [] [])) = []
  ∧ ∃ w1 self1 w2 self2 n1 n2 w3 es,
      mount (Component (VRef 1%positive) (VRef 2%positive) 3%positive
               VUndefined)
        example_resolved (mkProps (VNum 1) None) "abc" ∅ (World ∅ [] [])
        = (w1, inr self1)
      ∧ mount (Component (VRef 1%positive) (VRef 2%positive) 3%positive
                 VUndefined)
          example_resolved (mkProps (VNum 2) None) "abc" ∅ w1
          = (w2, inr self2)
      ∧ this_node self1 = Some n1 ∧ this_node self2 = Some n2
      ∧ n1 ≠ n2
      ∧ registered "resize" "abc" (window_on w1) = [ResizeOf (Some n1)]
      ∧ registered "resize" "abc" (window_on w2) = [ResizeOf (Some n2)]
      ∧ dispatch "resize" w2 = (w3, inr ())
      ∧ log w3 = log w2 ++ es
      ∧ handled "resize" "abc" es = [ResizeOf (Some n2)].
Proof.
  split; [reflexivity|]. split; [reflexivity|].
  exact (same_id_replaces_handler
           (Component (VRef 1%positive) (VRef 2%positive) 3%positive
              VUndefined)
           example_resolved (mkProps (VNum 1) None) ∅
           (Component (VRef 1%positive) (VRef 2%positive) 3%positive
              VUndefined)
           example_resolved (mkProps (VNum 2) None) ∅ "abc"
           (World ∅ [] []) eq_refl eq_refl).
Defined.

(** X8. Unmounting one of two mounted instances touches that instance
    only: its node is detached, with its attributes as they were, and
    its [ref] is called with [null]; the node of the other instance
    keeps its attributes and stays attached, and the listeners on
    [window] are all still there. *)
Theorem unmount_leaves_other_instance C1 h1 p1 id1 css1 C2 h2 p2 id2 css2 w :
  ∃ w1 self1 w2 self2 n1 n2 e1 e2 w3 self3 e1' e2',
    mount C1 h1 p1 id1 css1 w = (w1, inr self1)
    ∧ mount C2 h2 p2 id2 css2 w1 = (w2, inr self2)
    ∧ this_node self1 = Some n1 ∧ this_node self2 = Some n2
    ∧ n1 ≠ n2
    ∧ nodes w2 !! n1 = Some e1 ∧ attached e1 = true
    ∧ nodes w2 !! n2 = Some e2 ∧ attached e2 = true
    ∧ unmount self1 w2 = (w3, inr self3)
    ∧ this_node self3 = None
    ∧ nodes w3 !! n1 = Some e1' ∧ attrs e1' = attrs e1 ∧ attached e1' = false
    ∧ nodes w3 !! n2 = Some e2' ∧ attrs e2' = attrs e2 ∧ attached e2' = true
    ∧ window_on w3 = window_on w2
    ∧ log w3 = log w2 ++ [Detached n1; Bound None].
Proof.
  destruct (mounted C1 h1 p1 id1 css1 w)
    as (w1 & self1 & Hm1 & Hn1 & _ & _ & _ & Hns1 & _ & _).
  destruct (mounted C2 h2 p2 id2 css2 w1)
    as (w2 & self2 & Hm2 & Hn2 & _ & _ & _ & Hns2 & _ & _).
  set (n1 := fresh (dom (nodes w))) in *.
  set (n2 := fresh (dom (nodes w1))) in *.
  assert (n2 ≠ n1) as Hne.
  { intros Heq. pose proof (is_fresh (dom (nodes w1))) as Hf.
    fold n2 in Hf. apply Hf. rewrite Heq, Hns1.
    apply elem_of_dom. rewrite lookup_insert_eq. done. }
  assert (nodes w2 !! n1
          = Some (Element (mounted_attrs C1 h1 p1 id1 css1) css1 true))
    as He1.
  { rewrite Hns2, lookup_insert_ne by done.
    rewrite Hns1. apply lookup_insert_eq. }
  assert (nodes w2 !! n2
          = Some (Element (mounted_attrs C2 h2 p2 id2 css2) css2 true))
    as He2 by (rewrite Hns2; apply lookup_insert_eq).
  eexists w1, self1, w2, self2, n1, n2, _, _, _, _, _, _.
  split; [done|]. split; [done|]. split; [done|]. split; [done|].
  split; [done|].
  split; [exact He1|]. split; [done|].
  split; [exact He2|]. split; [done|].
  split; [by apply (unmount_spec self1 n1 _ w2 Hn1 He1)|].
  cbn [nodes window_on log this_node ref attrs computed attached].
  split; [done|]. split; [apply lookup_insert_eq|].
  split; [done|]. split; [done|].
  split; [rewrite lookup_insert_ne by done; exact He2|].
  done.
Qed.

(** X10. An instance listens to [resize] and to nothing else, and
    deliveries register nothing: in a document where nothing else
    listens, after the mount and any deliveries and resizes there is
    exactly one listener on [window], the instance's, and an event of
    any other type changes nothing. *)
Theorem listens_to_resize_only C h p id css evs w type :
  id_chars id = true → window_on w = [] → type ≠ "resize" →
  let n := fresh (dom (nodes w)) in
  ∃ w1 self1 w2 self2,
    mount C h p id css w = (w1, inr self1)
    ∧ run C evs self1 w1 = (w2, inr self2)
    ∧ window_on w2 = [Listener "resize" id (ResizeOf (Some n))]
    ∧ dispatch type w2 = (w2, inr ()).
Proof.
  intros Hid Hw Ht n.
  destruct (mounted C h p id css w)
    as (w1 & self1 & Hm & _ & _ & _ & Hq & _ & Hon1 & _).
  destruct (run_spec C evs self1 w1 Hq)
    as (w2 & self2 & es & Hr & _ & _ & _ & _ & Hon2 & _).
  fold n in Hon1.
  rewrite parseTypenames_resize, Hw in Hon1 by done. cbn in Hon1.
  exists w1, self1, w2, self2. split; [done|]. split; [done|].
  split; [by rewrite Hon2|].
  assert (filter (λ l, l_type l = type) (window_on w2) = []) as Hnone.
  { rewrite Hon2, Hon1, filter_cons, decide_False by (cbn; congruence).
    apply filter_nil. }
  rewrite dispatch_spec, Hnone. cbn. rewrite app_nil_r. by destruct w2.
Qed.

Lemma listens_to_resize_only_witness :
  id_chars "abc" = true ∧ window_on (World ∅ [] []) = []
  ∧ "scroll" ≠ "resize"
  ∧ ∃ w1 self1 w2 self2,
      mount (Component (VRef 1%positive) (VRef 2%positive) 3%positive
               VUndefined)
        example_resolved (mkProps (VNum 1) None) "abc" ∅ (World ∅ [] [])
        = (w1, inr self1)
      ∧ run (Component (VRef 1%positive) (VRef 2%positive) 3%positive
               VUndefined)
          [Deliver (mkProps (VNum 2) None); ViewportResize] self1 w1
          = (w2, inr self2)
      ∧ window_on w2 = [Listener "resize" "abc" (ResizeOf (Some 1%positive))]
      ∧ dispatch "scroll" w2 = (w2, inr ()).
Proof.
  assert ("scroll" ≠ "resize") as Hne by (intros [=]).
  split; [reflexivity|]. split; [reflexivity|]. split; [exact Hne|].
  exact (listens_to_resize_only
           (Component (VRef 1%positive) (VRef 2%positive) 3%positive
              VUndefined)
           example_resolved (mkProps (VNum 1) None) "abc" ∅
           [Deliver (mkProps (VNum 2) None); ViewportResize]
           (World ∅ [] []) "scroll" eq_refl eq_refl Hne).
Defined.

End lifecycle_more.

(** ** The resolved options, written in place and shared *)

Section options_sharing.
Implicit Types (C : component) (h : heap) (l m t : loc) (f g : val)
  (p : Props) (id : string) (css : gmap string string) (w : world).





End options_sharing.



(** ** Lengths in pixels *)

Section pixel_sizes.

Lemma digit_val_pretty d :
  (d < 10)%N → digit_val (pretty_N_char d) = Some (Z.of_N d).
Proof.
  intros Hd.
  assert (d = 0 ∨ d = 1 ∨ d = 2 ∨ d = 3 ∨ d = 4 ∨ d = 5 ∨ d = 6 ∨ d = 7
          ∨ d = 8 ∨ d = 9)%N as Hcases by lia.
  repeat (destruct Hcases as [->|Hcases]; [reflexivity|]).
  by subst.
Qed.

Lemma digits_digit d s acc :
  (d < 10)%N →
  digits 10 (String (pretty_N_char d) s) acc =
    digits 10 s (Some (default 0 acc * 10 + Z.of_N d)).
Proof.
  intros Hd. cbn [digits]. rewrite digit_val_pretty by done.
  assert ((Z.of_N d <? 10) = true) as -> by (apply Z.ltb_lt; lia). done.
Qed.

(** Reading back the digits that [pretty] writes. *)
Lemma digits_pretty_go x : ∀ s,
  (0 < x)%N →
  digits 10 (pretty_N_go x s) None = digits 10 s (Some (Z.of_N x)).
Proof.
  induction (N.lt_wf_0 x) as [x _ IH]; intros s Hx.
  rewrite pretty_N_go_step by done.
  assert (x `mod` 10 < 10)%N as Hmod by (apply N.mod_lt; lia).
  pose proof (N.div_mod x 10 ltac:(lia)) as Hdm.
  destruct (decide (x `div` 10 = 0)%N) as [Hz|Hnz].
  - rewrite Hz, pretty_N_go_0, digits_digit by done.
    simpl. do 2 f_equal. lia.
  - rewrite IH; [|apply N.div_lt; lia|lia].
    rewrite digits_digit by done. simpl. do 2 f_equal. lia.
Qed.

Lemma digits_stop rest acc :
  stops_number rest = true → digits 10 rest acc = acc.
Proof.
  destruct rest as [|c r]; [done|]. cbn [stops_number digits].
  destruct (digit_val c) as [d|]; [|done].
  intros [Hd _]%andb_true_iff. apply Z.leb_le in Hd.
  assert ((d <? 10) = false) as -> by (apply Z.ltb_ge; lia). done.
Qed.

Lemma pretty_N_go_app x : ∀ s rest,
  pretty_N_go x s +:+ rest = pretty_N_go x (s +:+ rest).
Proof.
  induction (N.lt_wf_0 x) as [x _ IH]; intros s rest.
  destruct (decide (x = 0)%N) as [->|Hx]; [by rewrite !pretty_N_go_0|].
  rewrite (pretty_N_go_step x s), (pretty_N_go_step x (s +:+ rest)) by lia.
  rewrite IH by (apply N.div_lt; lia). done.
Qed.

Lemma pretty_N_go_head x : ∀ s,
  (0 < x)%N →
  ∃ d t, (1 ≤ d < 10)%N ∧ pretty_N_go x s = String (pretty_N_char d) t.
Proof.
  induction (N.lt_wf_0 x) as [x _ IH]; intros s Hx.
  rewrite pretty_N_go_step by done.
  pose proof (N.div_mod x 10 ltac:(lia)) as Hdm.
  assert (x `mod` 10 < 10)%N as Hmod by (apply N.mod_lt; lia).
  destruct (decide (x `div` 10 = 0)%N) as [Hz|Hnz].
  - rewrite Hz, pretty_N_go_0. exists (x `mod` 10)%N, s. split; [lia|done].
  - apply IH; [apply N.div_lt; lia|lia].
Qed.

Lemma parseInt_leading_digit d t :
  (1 ≤ d < 10)%N →
  parseInt (String (pretty_N_char d) t) =
    match digits 10 (String (pretty_N_char d) t) None with
    | Some n => Int (1 * n)
    | None => NaN
    end.
Proof.
  intros Hd.
  assert (d = 1 ∨ d = 2 ∨ d = 3 ∨ d = 4 ∨ d = 5 ∨ d = 6 ∨ d = 7
          ∨ d = 8 ∨ d = 9)%N as Hcases by lia.
  repeat (destruct Hcases as [->|Hcases]; [reflexivity|]).
  by subst.
Qed.

Lemma parseInt_zero_then rest :
  stops_number rest = true → parseInt (String "0" rest) = Int 0.
Proof.
  destruct rest as [|c r]; [done|].
  destruct c as [[] [] [] [] [] [] [] []];
    first [ by (intros H; vm_compute in H) | by intros _; vm_compute ].
Qed.

(** [parseInt] reads back a number written in decimal and followed by
    a unit. *)
Lemma parseInt_pretty (x : N) rest :
  stops_number rest = true → parseInt (pretty x +:+ rest) = Int (Z.of_N x).
Proof.
  intros Hrest. unfold pretty, pretty_N.
  destruct (decide (x = 0)%N) as [->|Hx].
  - by apply parseInt_zero_then.
  - rewrite pretty_N_go_app.
    destruct (pretty_N_go_head x ("" +:+ rest)) as (d & t & Hd & Heq); [lia|].
    rewrite Heq, parseInt_leading_digit, <- Heq by done.
    rewrite digits_pretty_go by lia.
    rewrite digits_stop by done. f_equal. lia.
Qed.

Lemma pretty_Z_of_N (x : N) : pretty (Z.of_N x) = pretty x.
Proof. by destruct x. Qed.

(** X11. For an [svg] whose computed width and height are lengths in
    pixels, whole or with a fraction ([W px], [W.5px]), with [W] and [H]
    below [2^53] (where JavaScript numbers are exact), the coordinate
    rectangle written at mount is [0 0 W H]: the whole pixels of the
    size, the fraction dropped. *)
Theorem viewBox_pixel_size C h p id css w (W H : N) rw rh :
  (W < 2 ^ 53)%N → (H < 2 ^ 53)%N →
  stops_number rw = true → stops_number rh = true →
  css !! "width" = Some (pretty W +:+ rw) →
  css !! "height" = Some (pretty H +:+ rh) →
  let n := fresh (dom (nodes w)) in
  ∃ w1 self e,
    mount C h p id css w = (w1, inr self)
    ∧ nodes w1 !! n = Some e
    ∧ attrs e !! "viewBox" = Some ("0 0 " +:+ pretty W +:+ " " +:+ pretty H).
Proof.
  intros _ _ Hrw Hrh Hw Hh n.
  destruct (mounted C h p id css w)
    as (w1 & self1 & Hm & _ & _ & _ & _ & Hns1 & _ & _).
  fold n in Hns1.
  destruct (sized_attrs_lookup C h p id css) as (Hv & _).
  eexists w1, self1, _. split; [done|].
  split; [rewrite Hns1; apply lookup_insert_eq|].
  cbn [attrs]. rewrite Hv. unfold viewBox_of. rewrite Hw, Hh.
  cbn [from_option]. unfold Datatypes.id.
  rewrite !parseInt_pretty by done. cbn [num_to_string].
  by rewrite !pretty_Z_of_N.
Qed.

Lemma viewBox_pixel_size_witness :
  (400 < 2 ^ 53)%N ∧ (500 < 2 ^ 53)%N
  ∧ stops_number "px" = true ∧ stops_number ".5px" = true
  ∧ ({[ "width" := "400px"; "height" := "500.5px" ]} : gmap string string)
      !! "width" = Some (pretty 400%N +:+ "px")
  ∧ ({[ "width" := "400px"; "height" := "500.5px" ]} : gmap string string)
      !! "height" = Some (pretty 500%N +:+ ".5px")
  ∧ ∃ w1 self e,
      mount (Component (VRef 1%positive) (VRef 2%positive) 3%positive
               VUndefined)
        example_resolved (mkProps (VNum 1) None) "abc"
        {[ "width" := "400px"; "height" := "500.5px" ]} (World ∅ [] [])
        = (w1, inr self)
      ∧ nodes w1 !! 1%positive = Some e
      ∧ attrs e !! "viewBox" = Some "0 0 400 500".
Proof.
  split; [reflexivity|]. split; [reflexivity|].
  split; [reflexivity|]. split; [reflexivity|].
  split; [reflexivity|]. split; [reflexivity|].
  exact (viewBox_pixel_size
           (Component (VRef 1%positive) (VRef 2%positive) 3%positive
              VUndefined)
           example_resolved (mkProps (VNum 1) None) "abc"
           {[ "width" := "400px"; "height" := "500.5px" ]} (World ∅ [] [])
           400%N 500%N "px" ".5px" eq_refl eq_refl eq_refl eq_refl
           eq_refl eq_refl).
Defined.

End pixel_sizes.
